(** * website_crawler: contact-information extraction engine

    A shallow embedding of [backend/config.py], [backend/form_analyzer.py],
    [backend/sitemap_parser.py] and [backend/parser.py], followed by the
    properties of the specification that were checked against it.

    Conventions of the embedding.
    - A Python [str] is a [string]: the sequence of the bytes of its UTF-8
      encoding.  [lower] acts on the ASCII letters only; on pure-ASCII text
      it is exactly [str.lower].
    - A Python [set] of strings is a [gset string].  Where the code iterates
      over a set, the order is taken from [set_iter], an arbitrary
      enumeration of the set.
    - Calls that leave the repository (the HTTP session, the chat endpoint,
      [urllib.parse], [BeautifulSoup], [xml.etree], [re.findall]) are
      parameters of the development; the repository's own code is translated
      function by function and keeps its names.
    - [time.sleep] and the choice of a User-Agent header have no counterpart:
      they do not influence any value the code computes. *)

From Stdlib Require Import ZArith List String Ascii Bool Lia.
From stdpp Require Import gmap strings list sorting.

Open Scope string_scope.
Open Scope Z_scope.

(** ** Python string primitives *)

Module Py.

Definition is_upper (c : ascii) : bool :=
  let n := N_of_ascii c in ((65 <=? n) && (n <=? 90))%N.

Definition lower_char (c : ascii) : ascii :=
  if is_upper c then ascii_of_N (N_of_ascii c + 32) else c.

(** [s.lower()] *)
Fixpoint lower (s : string) : string :=
  match s with
  | EmptyString => EmptyString
  | String c r => String (lower_char c) (lower r)
  end.

(** [needle in hay] *)
Fixpoint contains (needle hay : string) : bool :=
  String.prefix needle hay ||
  match hay with
  | EmptyString => false
  | String _ r => contains needle r
  end.

(** [s.startswith(p)] and [s.endswith(p)] *)
Definition startswith (s p : string) : bool := String.prefix p s.
Definition endswith (s p : string) : bool :=
  String.prefix (String.rev p) (String.rev s).

(** [s.split(sep)] for a one-character separator: never the empty list. *)
Fixpoint split (sep : ascii) (s : string) : list string :=
  match s with
  | EmptyString => [EmptyString]
  | String c r =>
      if Ascii.eqb c sep then EmptyString :: split sep r
      else match split sep r with
           | h :: t => String c h :: t
           | [] => [String c EmptyString]
           end
  end.

(** [l[i]] on a list of strings; the code only indexes where the element
    exists (see [split_mailto_length] and [split_at_length]). *)
Definition item (l : list string) (i : nat) : string := nth i l EmptyString.

Fixpoint lstrip_char (c : ascii) (s : string) : string :=
  match s with
  | String d r => if Ascii.eqb d c then lstrip_char c r else s
  | EmptyString => EmptyString
  end.

(** [s.rstrip(c)] *)
Definition rstrip_char (c : ascii) (s : string) : string :=
  String.rev (lstrip_char c (String.rev s)).

Definition is_space (c : ascii) : bool :=
  let n := N_of_ascii c in ((n =? 32) || ((9 <=? n) && (n <=? 13)))%N.

Fixpoint lstrip (s : string) : string :=
  match s with
  | String d r => if is_space d then lstrip r else s
  | EmptyString => EmptyString
  end.

(** [s.strip()] *)
Definition strip (s : string) : string :=
  String.rev (lstrip (String.rev (lstrip s))).

(** [s[:n]] *)
Definition take_str (n : nat) (s : string) : string := String.substring 0 n s.

(** [s[:-1]] *)
Definition drop_last (s : string) : string :=
  String.substring 0 (String.length s - 1) s.

(** [' '.join(l)] *)
Fixpoint join_space (l : list string) : string :=
  match l with
  | [] => EmptyString
  | [x] => x
  | x :: r => x ++ " " ++ join_space r
  end.

(** [sorted(l)] on strings: code-point order, which on UTF-8 bytes is the
    byte-wise lexicographic order. *)
Definition sorted (l : list string) : list string :=
  merge_sort (fun a b => Is_true (String.leb a b)) l.

(** [sorted(l, key=k)] with integer keys; Python's sort is stable, and so is
    this insertion sort. *)
Fixpoint insert_by (k : string -> nat) (x : string) (l : list string) : list string :=
  match l with
  | [] => [x]
  | y :: r => if (k y <=? k x)%nat then y :: insert_by k x r else x :: l
  end.

Definition sorted_by (k : string -> nat) (l : list string) : list string :=
  fold_right (insert_by k) [] l.

End Py.

(** ** config.py *)

Module Config.

Definition CONTACT_FORM_THRESHOLD : Z := 5.
Definition ENABLE_AI_VERIFICATION : bool := true.

Definition KEYWORD_GROUPS : list (string * list string) :=
  [ ("contact", ["contact"; "contacts"; "kontakt"; "kontakty"; "связаться";
                 "контакты"; "feedback"]);
    ("about", ["about"; "o-nas"; "о-нас"]);
    ("support", ["support"; "help"; "podderzhka"; "поддержка"]);
    ("mail", ["mail"; "email"; "pochta"; "почта"]);
    ("ads", ["ads"; "advertisements"; "advertise"; "advertising"; "реклама";
             "рекламодателям"; "partner"; "partners"; "partnership";
             "partnerstvo"; "партнерство"; "collaborate"; "cooperation"]) ].

Definition ALL_PAGE_KEYWORDS : list string :=
  flat_map snd KEYWORD_GROUPS.

Definition COMMON_PATHS : list string :=
  [ "/contact"; "/contacts"; "/about"; "/feedback"; "/support"; "/help";
    "/ads"; "/advertisements"; "/advertise"; "/advertising"; "/partners";
    "/partnership"; "/collaborate" ].

(** [FORM_KEYWORDS]; every key the analyzer tests for is present. *)
Definition form_attributes : list string :=
  [ "contact"; "feedback"; "message"; "msg"; "mail"; "form"; "partner";
    "advertise"; "collaboration" ].
Definition input_fields_name : list string :=
  [ "name"; "имя"; "fname"; "lname"; "company"; "компания"; "organization" ].
Definition input_fields_email : list string :=
  [ "email"; "e-mail"; "mail"; "почта" ].
Definition input_fields_message : list string :=
  [ "message"; "msg"; "сообщение"; "text"; "body"; "comment"; "proposal";
    "предложение"; "description"; "описание" ].
Definition surrounding_text : list string :=
  [ "contact us"; "send a message"; "get in touch"; "свяжитесь с нами";
    "advertise with us"; "become a partner"; "partnership inquiry";
    "collaboration"; "сотрудничество"; "стать партнером"; "рекламодателям" ].

(** [LLM_SCORE_MAP.get(v, 0)] *)
Definition LLM_SCORE_MAP : list (Z * Z) :=
  [ (-2, -5); (-1, -2); (0, 0); (1, 2); (2, 5) ].

Fixpoint assoc_get (m : list (Z * Z)) (k : Z) (d : Z) : Z :=
  match m with
  | [] => d
  | (k', v) :: r => if k' =? k then v else assoc_get r k d
  end.

End Config.

(** ** What the code sees of the outside world *)

(** [requests.Response]: the fields the code reads. *)
Record Response := mkResponse {
  status_code : Z;
  text : string;        (* [response.text] *)
  content : string      (* [response.content] *)
}.

(** [response.raise_for_status()] raises [HTTPError] on 4xx and 5xx. *)
Definition raises_for_status (r : Response) : bool :=
  (400 <=? status_code r) && (status_code r <? 600).

(** Truth value of a response ([Response.__bool__] is [ok]). *)
Definition truthy (r : Response) : bool := negb (raises_for_status r).

(** The six components of [urllib.parse.urlparse]. *)
Record Url := mkUrl {
  scheme : string; netloc : string; path : string;
  params : string; query : string; fragment : string
}.

(** An element of [find_all(['input', 'textarea', 'select'])]. *)
Record Field := mkField {
  tag : string;               (* [input_field.name], the tag name *)
  attr_name : string;         (* [get('name', '')] *)
  attr_placeholder : string;  (* [get('placeholder', '')] *)
  attr_id : string;           (* [get('id', '')] *)
  attr_type : string          (* [get('type', '')] *)
}.

(** An element of [soup.find_all('form')]. *)
Record Form := mkForm {
  form_text : string;             (* [form.get_text()] *)
  form_action : string;           (* [form.get('action', '')] *)
  form_class : list string;       (* [form.get('class', [])] *)
  form_id : string;               (* [form.get('id', '')] *)
  inputs : list Field;
  form_html : string;             (* [form.prettify(formatter="html")] *)
  parent_text : option string     (* [form.parent.get_text(strip=True)] *)
}.

(** An element of [soup.find_all('a', href=True)]. *)
Record Anchor := mkAnchor {
  href : string;                  (* [link['href']] *)
  link_text : string              (* [link.get_text(strip=True)] *)
}.

(** A parsed page. *)
Record Soup := mkSoup {
  anchors : list Anchor;
  text_content : string;          (* [soup.get_text()] *)
  forms : list Form
}.

(** A parsed sitemap document.  For every element that
    [root.findall('.//url', ...)] (resp. ['.//sitemap']) yields, the text of
    the [loc] child the code selects; [None] when no child is selected or it
    has no text. *)
Record XmlRoot := mkXmlRoot {
  url_locs : list (option string);
  sitemap_locs : list (option string)
}.

Class Outside := {
  World : Type;
  (** [session.get(url, ...)]: a response, or [None] for a
      [requests.RequestException] (retries are the session's business). *)
  session_get : string -> World -> option Response * World;
  (** [chat.completions.create(...).choices[0].message.content] for a system
      and a user prompt; [None] for any exception. *)
  chat_create : string -> string -> World -> option string * World;
  urlparse : string -> Url;
  urlunparse : Url -> string;
  urljoin : string -> string -> string;
  BeautifulSoup : string -> Soup;
  (** [re.findall(pattern, s)] *)
  re_findall : string -> string -> list string;
  (** [ET.fromstring]; [None] for [ET.ParseError]. *)
  ET_fromstring : string -> option XmlRoot;
  (** The order in which a set is iterated. *)
  set_iter : gset string -> list string;
  set_iter_perm : forall s, set_iter s ≡ₚ elements s
}.

(** ** Effects: the world, and what the run did to it *)

Section Effects.
Context {Out : Outside}.

Record Sys := mkSys {
  world : World;
  requests : list (string * option Response);
                                     (* URLs requested and what came back,
                                        latest first *)
  chats : list (string * string);    (* prompts sent, latest first *)
  journal : list (string * string)   (* [log_message] calls: level, text *)
}.

Definition M (A : Type) : Type := Sys -> A * Sys.

Definition ret {A} (a : A) : M A := fun s => (a, s).

Definition bind {A B} (m : M A) (k : A -> M B) : M B :=
  fun s => let (a, s') := m s in k a s'.

Definition log_message (level msg : string) : M unit :=
  fun s => (tt, mkSys (world s) (requests s) (chats s) ((level, msg) :: journal s)).

Definition get (url : string) : M (option Response) :=
  fun s => let (r, w) := session_get url (world s) in
           (r, mkSys w ((url, r) :: requests s) (chats s) (journal s)).

Definition chat (system_prompt user_prompt : string) : M (option string) :=
  fun s => let (r, w) := chat_create system_prompt user_prompt (world s) in
           (r, mkSys w (requests s) ((system_prompt, user_prompt) :: chats s) (journal s)).

End Effects.

Notation "'let*' x ':=' m 'in' k" := (bind m (fun x => k))
  (at level 10, x pattern, m at level 100, k at level 200).
Notation "m ';;' k" := (bind m (fun _ => k))
  (at level 100, k at level 200, right associativity).

(** ** form_analyzer.py *)

Module FormAnalyzer.
Import Py Config.

Definition nl : string := String (ascii_of_nat 10) EmptyString.

Definition is_digit (c : ascii) : bool :=
  let n := N_of_ascii c in ((48 <=? n) && (n <=? 57))%N.

Fixpoint digits_value (acc : Z) (s : string) : Z :=
  match s with
  | String c r =>
      if is_digit c then digits_value (10 * acc + (Z.of_N (N_of_ascii c) - 48)) r
      else acc
  | EmptyString => acc
  end.

Definition starts_with_digit (s : string) : bool :=
  match s with String c _ => is_digit c | EmptyString => false end.

(** [int(re.search(r'-?\d+', s).group())]; [None] when nothing matches
    (the code then fails on [.group()]). *)
Fixpoint search_int (s : string) : option Z :=
  match s with
  | EmptyString => None
  | String c r =>
      if Ascii.eqb c "-" && starts_with_digit r then Some (- digits_value 0 r)
      else if is_digit c then Some (digits_value 0 s)
      else search_int r
  end.

Record Tally := mkTally {
  score : Z;
  has_email_field : bool;
  has_message_field : bool;
  has_name_field : bool
}.

Definition form_context (form : Form) : string :=
  lower (form_text form) ++ " " ++ lower (form_action form) ++ " " ++
  lower (join_space (form_class form)) ++ " " ++ lower (form_id form).

(** [for keyword in keywords: if keyword in context: score += w] *)
Definition add_hits (keywords : list string) (context : string) (w : Z) (score : Z) : Z :=
  fold_left (fun sc keyword => if contains keyword context then sc + w else sc)
            keywords score.

Definition field_text (i : Field) : string :=
  lower (attr_name i) ++ " " ++ lower (attr_placeholder i) ++ " " ++ lower (attr_id i).

(** One iteration of [for input_field in inputs]. *)
Definition score_field (t : Tally) (i : Field) : Tally :=
  let ft := field_text i in
  let field_type := lower (attr_type i) in
  let t :=
    if existsb (fun kw => contains kw ft || String.eqb field_type "email")
               input_fields_email
    then mkTally (score t + 4) true (has_message_field t) (has_name_field t)
    else t in
  let t :=
    if existsb (fun kw => contains kw ft || String.eqb (tag i) "textarea")
               input_fields_message
    then mkTally (score t + 3) (has_email_field t) true (has_name_field t)
    else t in
  let t :=
    if existsb (fun kw => contains kw ft) input_fields_name
    then mkTally (score t + 2) (has_email_field t) (has_message_field t) true
    else t in
  if existsb (fun kw => contains kw ft) ["contact"; "phone"; "subject"]
  then mkTally (score t + 2) (has_email_field t) (has_message_field t) (has_name_field t)
  else t.

(** The tally after the keyword and field loops. *)
Definition tally (form : Form) : Tally :=
  let ctx := form_context form in
  let s := add_hits form_attributes ctx 2 0 in
  let s := add_hits surrounding_text ctx 3 s in
  fold_left score_field (inputs form) (mkTally s false false false).

(** The score before the external call: loops plus combination bonuses. *)
Definition heuristic_score (form : Form) : Z :=
  let t := tally form in
  let s := score t in
  let s := if has_email_field t && has_message_field t then s + 3 else s in
  if has_email_field t && has_name_field t then s + 2 else s.

Definition _get_surrounding_text (form : Form) : string :=
  match parent_text form with
  | Some t => t
  | None => EmptyString
  end.

Definition system_prompt : string :=
  "Analyze HTML forms to determine if they are contact forms. " ++
  "Respond with a single integer: -2 (definitely not), -1 (unlikely), " ++
  "1 (likely), or 2 (definitely a contact form).".

Definition user_prompt (form : Form) (surrounding_text : string) : string :=
  let html := form_html form in
  let html :=
    if (2000 <? String.length html)%nat
    then take_str 2000 html ++ nl ++ "... (truncated)"
    else html in
  "Context: " ++ take_str 300 surrounding_text ++ nl ++ nl ++ "Form HTML: " ++ html.

Section WithOutside.
Context {Out : Outside}.

(** [openai_client] is [true] when a client was created. *)
Definition _verify_with_ai (openai_client : bool) (form : Form)
    (surrounding_text : string) : M Z :=
  if negb openai_client then ret 0
  else
    log_message "info" "Verifying with AI..." ;;
    let* reply := chat system_prompt (user_prompt form surrounding_text) in
    match reply with
    | None => log_message "error" "AI verification error" ;; ret 0
    | Some content =>
        match search_int (strip content) with
        | None => log_message "error" "AI verification error" ;; ret 0
        | Some ai_decision =>
            let score := assoc_get LLM_SCORE_MAP ai_decision 0 in
            log_message "info" "AI result" ;;
            ret score
        end
    end.

Definition uncertain (score : Z) : bool := (2 <=? score) && (score <=? 8).

Definition _is_contact_form (openai_client : bool) (form : Form) : M bool :=
  let score := heuristic_score form in
  let* score :=
    if openai_client && ENABLE_AI_VERIFICATION && uncertain score
    then let* ai_score :=
           _verify_with_ai openai_client form (_get_surrounding_text form) in
         ret (score + ai_score)
    else ret score in
  ret (CONTACT_FORM_THRESHOLD <=? score).

(** [analyze_contact_forms]: stops at the first contact form. *)
Fixpoint analyze_contact_forms_loop (openai_client : bool) (fs : list Form) : M bool :=
  match fs with
  | [] => ret false
  | form :: rest =>
      let* b := _is_contact_form openai_client form in
      if b then ret true else analyze_contact_forms_loop openai_client rest
  end.

Definition analyze_contact_forms (openai_client : bool) (soup : Soup) : M bool :=
  analyze_contact_forms_loop openai_client (forms soup).

End WithOutside.
End FormAnalyzer.

(** ** sitemap_parser.py *)

Module SitemapParser.
Import Py Config.

Definition MAX_SITEMAP_SIZE_MB : nat := 10.
Definition MAX_URLS_PER_SITEMAP : nat := 1000.
Definition MAX_SITEMAPS : nat := 5.

Definition url_pattern : string := "<loc[^>]*>(.*?)</loc>".

(** [size_mb > MAX_SITEMAP_SIZE_MB] for [size_mb = len(content) / (1024 * 1024)] *)
Definition too_large (content : string) : bool :=
  (MAX_SITEMAP_SIZE_MB * (1024 * 1024) <? String.length content)%nat.

Section WithOutside.
Context {Out : Outside}.

Definition _normalize_url (url : string) : string :=
  let parsed := urlparse url in
  let path := rstrip_char "/" (path parsed) in
  let path := if String.eqb path "" then "/" else path in
  urlunparse (mkUrl (scheme parsed) (netloc parsed) path "" "" "").

Definition _is_same_domain (base_url url : string) : bool :=
  String.eqb (netloc (urlparse url)) (netloc (urlparse base_url)).

(** [if loc_elem is not None and loc_elem.text] *)
Definition loc_text (loc : option string) : option string :=
  match loc with
  | Some t => if String.eqb t "" then None else Some t
  | None => None
  end.

(** [urls.add(clean_url)] guarded by the same-domain test. *)
Definition add_clean (base_url : string) (urls : gset string) (raw : string) : gset string :=
  let clean_url := _normalize_url (strip raw) in
  if _is_same_domain base_url clean_url then urls ∪ {[ clean_url ]} else urls.

(** [for url_elem in root.findall('.//url', ...)] *)
Definition url_loop (base_url : string) (locs : list (option string))
    (urls : gset string) : gset string :=
  fold_left (fun urls loc =>
               match loc_text loc with
               | Some t => add_clean base_url urls t
               | None => urls
               end) locs urls.

(** [for sitemap_elem in root.findall('.//sitemap', ...)], with its [break];
    [nested] is the recursive call to [_parse_sitemap]. *)
Fixpoint sitemap_loop (nested : string -> M (gset string))
    (locs : list (option string)) (urls : gset string) : M (gset string) :=
  match locs with
  | [] => ret urls
  | loc :: rest =>
      match loc_text loc with
      | None => sitemap_loop nested rest urls
      | Some t =>
          let* nested_urls := nested (strip t) in
          let urls := urls ∪ nested_urls in
          if (MAX_URLS_PER_SITEMAP <=? size urls)%nat then ret urls
          else sitemap_loop nested rest urls
      end
  end.

Definition _extract_urls_from_xml (nested : string -> M (gset string))
    (base_url : string) (xml_content : string) : M (gset string) :=
  match ET_fromstring xml_content with
  | Some root =>
      let urls := url_loop base_url (url_locs root) ∅ in
      sitemap_loop nested (sitemap_locs root) urls
  | None =>
      ret (fold_left (add_clean base_url) (re_findall url_pattern xml_content) ∅)
  end.

(** [depth] bounds the nesting of sitemap indexes.  Python bounds it by the
    interpreter's recursion limit: the [RecursionError] is an [Exception],
    which [_parse_sitemap] turns into an empty set. *)
Fixpoint _parse_sitemap (depth : nat) (base_url sitemap_url : string) : M (gset string) :=
  match depth with
  | O => log_message "error" "Error parsing sitemap" ;; ret ∅
  | S depth' =>
      let* r := get sitemap_url in
      match r with
      | None => log_message "error" "Failed to load sitemap" ;; ret ∅
      | Some response =>
          if negb (status_code response =? 200) then ret ∅
          else if too_large (content response)
          then log_message "warning" "Sitemap too large, skipping" ;; ret ∅
          else _extract_urls_from_xml (_parse_sitemap depth' base_url)
                                      base_url (content response)
      end
  end.

(** [for sitemap_url in potential_sitemaps] *)
Fixpoint probe_loop (candidates : list string) (valid_sitemaps : gset string) : M (gset string) :=
  match candidates with
  | [] => ret valid_sitemaps
  | sitemap_url :: rest =>
      let* r := get sitemap_url in
      match r with
      | Some response =>
          if status_code response =? 200
          then probe_loop rest (valid_sitemaps ∪ {[ sitemap_url ]})
          else probe_loop rest valid_sitemaps
      | None => probe_loop rest valid_sitemaps
      end
  end.

Definition _find_sitemap_urls (base_url : string) : M (gset string) :=
  let potential_sitemaps : gset string :=
    {[ urljoin base_url "/sitemap.xml" ]} ∪ {[ urljoin base_url "/sitemap_index.xml" ]} ∪
    {[ urljoin base_url "/sitemaps.xml" ]} ∪ {[ urljoin base_url "/sitemap/sitemap.xml" ]} in
  probe_loop (set_iter potential_sitemaps) ∅.

Definition has_keyword (url : string) : bool :=
  existsb (fun keyword => contains keyword (lower url)) ALL_PAGE_KEYWORDS.

(** [for url in sorted_remaining: prioritized.add(url); if len >= 50: break] *)
Fixpoint backfill (sorted_remaining : list string) (prioritized : gset string) : gset string :=
  match sorted_remaining with
  | [] => prioritized
  | url :: rest =>
      let prioritized := prioritized ∪ {[ url ]} in
      if (50 <=? size prioritized)%nat then prioritized else backfill rest prioritized
  end.

Definition path_length (url : string) : nat := String.length (path (urlparse url)).

Definition _prioritize_urls (urls : gset string) : gset string :=
  if decide (urls = ∅) then ∅
  else
    let prioritized : gset string :=
      fold_left (fun acc url => if has_keyword url then acc ∪ {[ url ]} else acc)
                (set_iter urls) ∅ in
    if (20 <=? size prioritized)%nat then prioritized
    else
      let remaining_urls := urls ∖ prioritized in
      let sorted_remaining := sorted_by path_length (set_iter remaining_urls) in
      backfill sorted_remaining prioritized.

(** [for sitemap_url in list(sitemap_urls)[:MAX_SITEMAPS]], with its [break];
    the state is [(all_links, processed)]. *)
Fixpoint top_loop (depth : nat) (base_url : string) (todo : list string)
    (all_links : gset string) (processed : nat) : M (gset string * nat) :=
  match todo with
  | [] => ret (all_links, processed)
  | sitemap_url :: rest =>
      let* links := _parse_sitemap depth base_url sitemap_url in
      let all_links := all_links ∪ links in
      let processed := S processed in
      if (MAX_URLS_PER_SITEMAP <=? size all_links)%nat then ret (all_links, processed)
      else top_loop depth base_url rest all_links processed
  end.

(** The links gathered before prioritization, and the [processed] counter. *)
Definition gather (depth : nat) (base_url : string) (sitemap_urls : gset string)
    : M (gset string * nat) :=
  top_loop depth base_url (take MAX_SITEMAPS (set_iter sitemap_urls)) ∅ O.

Definition get_links_from_sitemap (depth : nat) (base_url : string) : M (gset string) :=
  log_message "info" "Searching for sitemap..." ;;
  let* sitemap_urls := _find_sitemap_urls base_url in
  if decide (sitemap_urls = ∅) then
    log_message "info" "No sitemaps found" ;; ret ∅
  else
    log_message "info" "Found sitemap(s)" ;;
    let* r := gather depth base_url sitemap_urls in
    let prioritized_links := _prioritize_urls (fst r) in
    log_message "info" "Processed sitemaps" ;;
    ret prioritized_links.

End WithOutside.
End SitemapParser.

(** ** parser.py *)

Module AdvancedParser.
Import Py Config.

(** The fields of an [AdvancedParser] instance. *)
Record Parser := mkParser {
  base_url : string;
  domain_name : string;
  skip_sitemap : bool;
  openai_client : bool;             (* [form_analyzer.openai_client] is set *)
  emails : gset string;
  contact_form_pages : gset string;
  successful_groups : gset string
}.

(** The dictionary [parse] returns. *)
Record Result := mkResult {
  result_emails : list string;
  result_contact_form_pages : list string
}.

Definition set_emails (p : Parser) (e : gset string) : Parser :=
  mkParser (base_url p) (domain_name p) (skip_sitemap p) (openai_client p)
           e (contact_form_pages p) (successful_groups p).

Definition set_contact_form_pages (p : Parser) (c : gset string) : Parser :=
  mkParser (base_url p) (domain_name p) (skip_sitemap p) (openai_client p)
           (emails p) c (successful_groups p).

Definition set_successful_groups (p : Parser) (g : gset string) : Parser :=
  mkParser (base_url p) (domain_name p) (skip_sitemap p) (openai_client p)
           (emails p) (contact_form_pages p) g.

Definition false_positives : list string :=
  [ ".png"; ".jpg"; ".jpeg"; ".gif"; ".css"; ".js";
    "example.com"; "test@"; "@example"; "noreply@" ].

Definition excluded_extensions : list string :=
  [ ".png"; ".jpg"; ".jpeg"; ".gif"; ".pdf"; ".zip"; ".doc"; ".docx" ].

Definition email_pattern : string :=
  "[a-zA-Z0-9._%+-]+@[a-zA-Z0-9.-]+\.[a-zA-Z]{2,}".

Definition _is_valid_email (email : string) : bool :=
  if negb (contains "@" email) || negb (contains "." (item (split "@" email) 1))
  then false
  else
    let email_lower := lower email in
    negb (existsb (fun fp => contains fp email_lower) false_positives).

(** [href.split(':')[1].split('?')[0]] *)
Definition mailto_address (href : string) : string :=
  item (split "?" (item (split ":" href) 1)) 0.

(** One iteration of the [mailto:] loop of [_find_emails]. *)
Definition mailto_step (emails : gset string) (link : Anchor) : gset string :=
  if startswith (href link) "mailto:" then
    let email := mailto_address (href link) in
    if negb (String.eqb email "") && _is_valid_email email
    then emails ∪ {[ lower email ]} else emails
  else emails.

(** One iteration of the regex loop of [_find_emails]. *)
Definition regex_step (emails : gset string) (email : string) : gset string :=
  if _is_valid_email email then emails ∪ {[ lower email ]} else emails.

Definition _should_skip_group (p : Parser) (url_group : option string) : bool :=
  match url_group with
  | Some g => bool_decide (g ∈ successful_groups p)
  | None => false
  end.

(** [if url_group:] holds for a group name that is not empty. *)
Definition _mark_group_as_successful (p : Parser) (url_group : option string) : Parser :=
  match url_group with
  | Some g =>
      if String.eqb g "" then p
      else set_successful_groups p (successful_groups p ∪ {[ g ]})
  | None => p
  end.

Section WithOutside.
Context {Out : Outside}.

Definition _normalize_url (url : string) : string :=
  let parsed := urlparse url in
  let path := path parsed in
  let path :=
    if endswith path "/" && (1 <? String.length path)%nat then drop_last path
    else path in
  urlunparse (mkUrl (scheme parsed) (netloc parsed) path
                    (params parsed) (query parsed) (fragment parsed)).

(** [AdvancedParser(base_url, ..., skip_sitemap)] *)
Definition new (url : string) (client : bool) (skip : bool) : Parser :=
  let b := _normalize_url url in
  mkParser b (netloc (urlparse b)) skip client ∅ ∅ ∅.

Definition _get_url_keyword_group (url : string) : option string :=
  let path_segment := List.last (split "/" (lower (path (urlparse url)))) "" in
  match List.find (fun g => existsb (String.eqb path_segment) (snd g)) KEYWORD_GROUPS with
  | Some g => Some (fst g)
  | None =>
      if contains "contact-us" url then Some "contact"
      else if contains "about-us" url then Some "about"
      else None
  end.

Definition _make_request (url : string) (ignore_errors : bool) : M (option Response) :=
  let* r := get url in
  match r with
  | Some response =>
      if negb ignore_errors && raises_for_status response
      then log_message "warning" "Request error" ;; ret None
      else ret (Some response)
  | None =>
      if negb ignore_errors
      then log_message "warning" "Request error" ;; ret None
      else ret None
  end.

Definition _is_valid_url (p : Parser) (url : string) : bool :=
  let parsed_url := urlparse url in
  if negb (endswith (netloc parsed_url) (domain_name p)) then false
  else if negb (existsb (String.eqb (scheme parsed_url)) ["http"; "https"]) then false
  else if existsb (fun ext => endswith (lower url) ext) excluded_extensions then false
  else true.

(** Returns whether new emails were found, and the updated instance. *)
Definition _find_emails (p : Parser) (soup : Soup) : bool * Parser :=
  let emails_before := size (emails p) in
  let e := fold_left mailto_step (anchors soup) (emails p) in
  let e := fold_left regex_step (re_findall email_pattern (text_content soup)) e in
  ((emails_before <? size e)%nat, set_emails p e).

(** One iteration of the homepage link loop. *)
Definition link_step (p : Parser) (priority_urls : gset string) (link : Anchor) : gset string :=
  let absolute_link := urljoin (base_url p) (href link) in
  if negb (_is_valid_url p absolute_link) then priority_urls
  else
    let link_text := lower (link_text link) in
    let link_url := lower absolute_link in
    if existsb (fun keyword => contains keyword link_url || contains keyword link_text)
               ALL_PAGE_KEYWORDS
    then priority_urls ∪ {[ _normalize_url absolute_link ]}
    else priority_urls.

Definition common_step (p : Parser) (priority_urls : gset string) (path : string) : gset string :=
  priority_urls ∪ {[ _normalize_url (urljoin (base_url p) path) ]}.

Definition _collect_priority_urls (depth : nat) (p : Parser) : M (gset string) :=
  log_message "info" "Parsing" ;;
  let priority_urls : gset string := {[ base_url p ]} in
  let* main_page_response := _make_request (base_url p) false in
  match main_page_response with
  | Some response =>
      if negb (truthy response) then
        log_message "error" "Cannot load main page" ;; ret priority_urls
      else
        let homepage_soup := BeautifulSoup (text response) in
        let priority_urls := fold_left (link_step p) (anchors homepage_soup) priority_urls in
        let* priority_urls :=
          if negb (skip_sitemap p) then
            let* sitemap_links := SitemapParser.get_links_from_sitemap depth (base_url p) in
            ret (priority_urls ∪ sitemap_links)
          else
            log_message "info" "Skipping sitemap (fast mode)" ;; ret priority_urls in
        log_message "info" "Adding common contact pages..." ;;
        ret (fold_left (common_step p) COMMON_PATHS priority_urls)
  | None =>
      log_message "error" "Cannot load main page" ;; ret priority_urls
  end.

(** Returns whether information was found, and the updated instance.  The
    [index] and [total] arguments of the code only feed its log lines. *)
Definition _process_url (p : Parser) (url : string) : M (bool * Parser) :=
  let url_group := _get_url_keyword_group url in
  if _should_skip_group p url_group then
    log_message "info" "Skipping (group already processed)" ;; ret (false, p)
  else
    log_message "info" "Checking" ;;
    let* r := _make_request url true in
    match r with
    | None => ret (false, p)
    | Some response =>
        if negb (truthy response) || negb (status_code response =? 200)
        then ret (false, p)
        else
          let soup := BeautifulSoup (text response) in
          let '(found_emails, p) := _find_emails p soup in
          let* found_forms := FormAnalyzer.analyze_contact_forms (openai_client p) soup in
          let p :=
            if found_forms
            then set_contact_form_pages p (contact_form_pages p ∪ {[ _normalize_url url ]})
            else p in
          let found := found_emails || found_forms in
          match url_group with
          | Some g =>
              if found && negb (String.eqb g "") then
                let p := _mark_group_as_successful p url_group in
                log_message "info" "Group marked as successful" ;; ret (found, p)
              else ret (found, p)
          | None => ret (found, p)
          end
    end.

(** [for i, url in enumerate(urls_to_check, 1): self._process_url(...)] *)
Fixpoint process_all (p : Parser) (urls_to_check : list string) : M Parser :=
  match urls_to_check with
  | [] => ret p
  | url :: rest =>
      let* r := _process_url p url in
      process_all (snd r) rest
  end.

(** [None] is the failure value of the code. *)
Definition parse (depth : nat) (p : Parser) : M (option Result * Parser) :=
  let* priority_urls := _collect_priority_urls depth p in
  if decide (priority_urls = ∅) then
    log_message "error" "No URLs to process" ;; ret (None, p)
  else
    log_message "info" "Found URLs to check for contact information" ;;
    let urls_to_check := sorted (set_iter priority_urls) in
    let* p := process_all p urls_to_check in
    ret (Some (mkResult (sorted (set_iter (emails p)))
                        (sorted (set_iter (contact_form_pages p)))), p).

End WithOutside.
End AdvancedParser.

(** ** google_search.py *)

Module GoogleSearchAPI.
Import Py.

(** An element of [data['items']]: the keys the code reads, when present. *)
Record Item := mkItem {
  item_title : option string;
  item_link : option string;
  item_snippet : option string
}.

(** One search result, as [search] builds it. *)
Record SearchResult := mkSearchResult {
  title : string;
  link : string;
  snippet : string;
  domain : string
}.

(** What one request to the search endpoint comes to: a
    [requests.RequestException] (also from [raise_for_status]), another
    exception (a body that is not JSON), or the parsed body, of which the
    code reads [data['items']] when the key is there. *)
Inductive SearchReply :=
  | RequestError
  | ProcessingError
  | Data (items : option (list Item)).

(** [requests.get(base_url, params={key, cx, q, num, start}, timeout=10)]
    for a query, [num] and [start]. *)
Class SearchService {Out : Outside} := {
  customsearch : string -> Z -> Z -> World -> SearchReply * World
}.

(** [len(l)] *)
Definition len {A} (l : list A) : Z := Z.of_nat (length l).

(** [l[:n]]: a negative [n] counts from the end. *)
Definition slice_to {A} (n : Z) (l : list A) : list A :=
  if n <? 0 then take (length l - Z.to_nat (- n)) l else take (Z.to_nat n) l.

(** [item.get(key, '')] *)
Definition get_or_empty (v : option string) : string :=
  match v with Some s => s | None => EmptyString end.

Section WithOutside.
Context {Out : Outside} {Search : SearchService}.

Definition request (query : string) (num start : Z) : M SearchReply :=
  fun s => let (r, w) := customsearch query num start (world s) in
           (r, mkSys w (requests s) (chats s) (journal s)).

Definition _extract_domain (url : string) : string :=
  let parsed := urlparse url in
  scheme parsed ++ "://" ++ netloc parsed.

Definition result_of_item (item : Item) : SearchResult :=
  mkSearchResult (get_or_empty (item_title item)) (get_or_empty (item_link item))
                 (get_or_empty (item_snippet item))
                 (_extract_domain (get_or_empty (item_link item))).

Definition search (query : string) (num_results start : Z) : M (list SearchResult) :=
  log_message "info" "Searching" ;;
  let* reply := request query (Z.min num_results 10) start in
  match reply with
  | Data data =>
      let results :=
        match data with
        | Some items => map result_of_item items
        | None => []
        end in
      log_message "info" "Found results" ;; ret results
  | RequestError => log_message "error" "Search error" ;; ret []
  | ProcessingError => log_message "error" "Processing error" ;; ret []
  end.

(** [while len(all_results) < total_results]; [turns] bounds the number of
    iterations, and [None] says that the bound was reached. *)
Fixpoint pages_loop (turns : nat) (query : string) (total_results : Z)
    (all_results : list SearchResult) (start : Z) : M (option (list SearchResult)) :=
  match turns with
  | O => ret None
  | S turns' =>
      if negb (len all_results <? total_results) then ret (Some all_results)
      else
        let remaining := total_results - len all_results in
        let num := Z.min remaining 10 in
        let* results := search query num start in
        match results with
        | [] => ret (Some all_results)
        | _ :: _ =>
            let all_results := (all_results ++ results)%list in
            let start := start + len results in
            (if len all_results <? total_results
             then log_message "info" "Pause between requests..."
             else ret tt) ;;
            pages_loop turns' query total_results all_results start
        end
  end.

Definition get_multiple_pages (turns : nat) (query : string) (total_results : Z)
    : M (option (list SearchResult)) :=
  let* all_results := pages_loop turns query total_results [] 1 in
  ret (option_map (slice_to total_results) all_results).

End WithOutside.
End GoogleSearchAPI.

(** ** batch_parser.py *)

Module BatchParser.
Import Py GoogleSearchAPI.

(** The value kept per domain by [_extract_unique_domains]. *)
Record SearchInfo := mkSearchInfo {
  info_title : string;
  info_snippet : string;
  info_original_url : string
}.

(** A value of [all_results]. *)
Record Outcome := mkOutcome {
  search_info : SearchInfo;
  parsing_results : option AdvancedParser.Result;
  status : string;
  error : option string             (* the key ['error'], when present *)
}.



(** A [dict] with string keys, in insertion order. *)
Fixpoint dict_mem {V} (k : string) (d : list (string * V)) : bool :=
  match d with
  | [] => false
  | (k', _) :: r => String.eqb k' k || dict_mem k r
  end.

(** [d[k] = v]: an existing key keeps its place. *)
Fixpoint dict_set {V} (k : string) (v : V) (d : list (string * V)) : list (string * V) :=
  match d with
  | [] => [(k, v)]
  | (k', v') :: r => if String.eqb k' k then (k, v) :: r else (k', v') :: dict_set k v r
  end.

(** The fields of a [BatchParser] instance. *)
Record Batch := mkBatch {
  batch_skip_sitemap : bool;
  batch_client : bool;              (* a scorer client can be created *)
  all_results : list (string * Outcome)
}.

Definition _extract_unique_domains (search_results : list SearchResult)
    : list (string * SearchInfo) :=
  fold_left (fun unique_domains result =>
               if negb (dict_mem (domain result) unique_domains)
               then dict_set (domain result)
                             (mkSearchInfo (title result) (snippet result) (link result))
                             unique_domains
               else unique_domains)
            search_results [].

Definition large_sites : list string :=
  [ "netflix"; "youtube"; "amazon"; "wikipedia"; "google"; "facebook"; "twitter" ].

Definition _should_use_fast_mode (domain : string) : bool :=
  existsb (fun site => contains site (lower domain)) large_sites.







Section WithOutside.
Context {Out : Outside} {Search : SearchService}.

(** [for i, (domain, info) in enumerate(unique_domains.items(), 1)].  The
    [except Exception] of the code has nothing to catch here: the calls the
    embedding makes do not raise. *)
Fixpoint _parse_domains (depth : nat) (b : Batch) (todo : list (string * SearchInfo))
    (i total_domains : nat) : M Batch :=
  match todo with
  | [] => ret b
  | (domain, info) :: rest =>
      log_message "info" "--------" ;;
      log_message "info" "Parsing" ;;
      log_message "info" "Original page" ;;
      log_message "info" "--------" ;;
      let should_skip_sitemap := batch_skip_sitemap b || _should_use_fast_mode domain in
      (if should_skip_sitemap then log_message "info" "Using fast mode" else ret tt) ;;
      let parser := AdvancedParser.new domain (batch_client b) should_skip_sitemap in
      let* r := AdvancedParser.parse depth parser in
      let* b :=
        match fst r with
        | Some results =>
            log_message "info" "Result" ;;
            ret (mkBatch (batch_skip_sitemap b) (batch_client b)
                   (dict_set domain (mkOutcome info (Some results) "success" None)
                             (all_results b)))
        | None =>
            log_message "error" "Parsing failed" ;;
            ret (mkBatch (batch_skip_sitemap b) (batch_client b)
                   (dict_set domain (mkOutcome info None "failed" None) (all_results b)))
        end in
      (if (i <? total_domains)%nat then log_message "info" "Pause between domains..."
       else ret tt) ;;
      _parse_domains depth b rest (S i) total_domains
  end.

(** [for i, (domain, info) in enumerate(...)]: two log lines per domain. *)
Fixpoint announce (todo : list (string * SearchInfo)) : M unit :=
  match todo with
  | [] => ret tt
  | _ :: rest =>
      log_message "info" "domain" ;; log_message "info" "title" ;; announce rest
  end.

(** Returns the dictionary and the instance; [None] when the search loop
    reached its bound. *)
Definition parse_from_search (turns depth : nat) (b : Batch) (query : string)
    (num_results : Z) : M (option (list (string * Outcome) * Batch)) :=
  log_message "info" "========" ;;
  log_message "info" "BATCH PARSING FOR QUERY" ;;
  log_message "info" "========" ;;
  let* found := get_multiple_pages turns query num_results in
  match found with
  | None => ret None
  | Some [] => log_message "warning" "No search results" ;; ret (Some ([], b))
  | Some search_results =>
      let unique_domains := _extract_unique_domains search_results in
      log_message "info" "Found unique domains" ;;
      announce unique_domains ;;
      let* b := _parse_domains depth b unique_domains 1 (length unique_domains) in
      ret (Some (all_results b, b))
  end.

End WithOutside.
End BatchParser.

(** ** app.py: the rows of the CSV export *)

Module App.
Import Py.

(** The columns of a [ParsedSite] that [export_task_csv] reads; [parsed_date]
    is [parsed_at.strftime('%Y-%m-%d %H:%M')], or the empty string. *)
Record ParsedSite := mkParsedSite {
  parsed_date : string;
  site_domain : string;
  site_url : string;
  site_emails : option (list string);
  site_contact_forms : option (list string)
}.

Definition or_empty (l : option (list string)) : list string :=
  match l with Some l => l | None => [] end.

Section WithOutside.
Context {Out : Outside}.

(** [contact_form_urls] *)
Definition contact_form_urls (site : ParsedSite) : list string :=
  map (fun form_url =>
         if startswith form_url "http" then form_url
         else urljoin (site_url site) form_url)
      (or_empty (site_contact_forms site)).

(** The rows written for one site. *)
Definition site_rows (site : ParsedSite) : list (list string) :=
  let urls := contact_form_urls site in
  let main_url_has_form := existsb (String.eqb (site_url site)) urls in
  let email_rows :=
    map (fun email =>
           [ parsed_date site; site_domain site; site_url site; email;
             if main_url_has_form then "True" else "" ])
        (or_empty (site_emails site)) in
  let form_rows :=
    map (fun form_url => [ parsed_date site; site_domain site; form_url; ""; "True" ])
        (List.filter (fun form_url => negb (String.eqb form_url (site_url site))) urls) in
  let rows_created :=
    negb (Nat.eqb (length email_rows) 0) || negb (Nat.eqb (length form_rows) 0) in
  (email_rows ++ form_rows ++
   (if rows_created then []
    else [[ parsed_date site; site_domain site; site_url site; ""; "" ]]))%list.

(** The header and the rows of all sites. *)
Definition export_rows (sites : list ParsedSite) : list (list string) :=
  [ "date"; "domain"; "page"; "emails"; "form_found_page" ] :: flat_map site_rows sites.

End WithOutside.
End App.

(** ** Vocabulary of the properties *)

Module Props.
Import Py Config.

(** The tests of [score_field], one per category, and the points a field
    brings. *)
Definition is_email_field (i : Field) : bool :=
  existsb (fun kw => contains kw (FormAnalyzer.field_text i) ||
                     String.eqb (lower (attr_type i)) "email") input_fields_email.

Definition is_message_field (i : Field) : bool :=
  existsb (fun kw => contains kw (FormAnalyzer.field_text i) ||
                     String.eqb (tag i) "textarea") input_fields_message.

Definition is_name_field (i : Field) : bool :=
  existsb (fun kw => contains kw (FormAnalyzer.field_text i)) input_fields_name.

Definition is_extra_field (i : Field) : bool :=
  existsb (fun kw => contains kw (FormAnalyzer.field_text i)) ["contact"; "phone"; "subject"].

Definition field_points (i : Field) : Z :=
  (if is_email_field i then 4 else 0) + (if is_message_field i then 3 else 0) +
  (if is_name_field i then 2 else 0) + (if is_extra_field i then 2 else 0).

Definition points_sum (l : list Field) : Z :=
  fold_right (fun i acc => field_points i + acc) 0 l.

(** The combination bonuses, from the three flags. *)
Definition bonus (has_email has_message has_name : bool) : Z :=
  (if has_email && has_message then 3 else 0) + (if has_email && has_name then 2 else 0).

(** The points of the two keyword loops over the form context. *)
Definition base_score (form : Form) : Z :=
  FormAnalyzer.add_hits surrounding_text (FormAnalyzer.form_context form) 3
    (FormAnalyzer.add_hits form_attributes (FormAnalyzer.form_context form) 2 0).

(** The same form with other fields. *)
Definition with_inputs (form : Form) (l : list Field) : Form :=
  mkForm (form_text form) (form_action form) (form_class form) (form_id form)
         l (form_html form) (parent_text form).

(** The form with field [i] added in position [k]. *)
Definition add_field (k : nat) (i : Field) (form : Form) : Form :=
  with_inputs form (take k (inputs form) ++ i :: drop k (inputs form)).

(** The table of score deltas, as the specification lists it. *)
Definition verdict_delta (v : Z) : Z :=
  if v =? -2 then -5 else if v =? -1 then -2 else if v =? 0 then 0
  else if v =? 1 then 2 else if v =? 2 then 5 else 0.

(** What a reply of the external scorer contributes: a failed call or a
    reply without an integer counts for nothing. *)
Definition reply_delta (reply : option string) : Z :=
  match reply with
  | Some content =>
      match FormAnalyzer.search_int (strip content) with
      | Some v => verdict_delta v
      | None => 0
      end
  | None => 0
  end.

Definition Lowercase (s : string) : Prop :=
  forall c, In c (list_ascii_of_string s) -> is_upper c = false.

(** [s] has an at sign and, after it, a dot. *)
Definition AtThenDot (s : string) : Prop :=
  exists a b c, s = a ++ String "@" (b ++ String "." c).

Definition NoFalsePositive (s : string) : Prop :=
  forall fp, In fp AdvancedParser.false_positives -> contains fp s = false.

(** What the specification asks of a returned address. *)
Definition Clean (e : string) : Prop :=
  Lowercase e /\ AtThenDot e /\ NoFalsePositive e.

Section WithOutside.
Context {Out : Outside}.

(** [e] is the lowercased address of a [mailto:] link of the page, or a
    lowercased match of the email pattern in its text. *)
Definition FromPage (soup : Soup) (e : string) : Prop :=
  (exists link, In link (anchors soup) /\
                startswith (href link) "mailto:" = true /\
                e = lower (AdvancedParser.mailto_address (href link))) \/
  (exists m, In m (re_findall AdvancedParser.email_pattern (text_content soup)) /\
             e = lower m).

(** [e] comes from a page that the run has fetched. *)
Definition FromFetched (s : Sys) (e : string) : Prop :=
  exists url response, In (url, Some response) (requests s) /\
                       FromPage (BeautifulSoup (text response)) e.

(** The keyword URLs of a set. *)
Definition keyword_urls (urls : gset string) : gset string :=
  filter (fun u => Is_true (SitemapParser.has_keyword u)) urls.


End WithOutside.
End Props.

(** ** A small instance of the outside world, to run the code on examples *)

Module Demo.
Import Py.

(** [s] cut at the first occurrence of [sep]. *)
Fixpoint cut (sep s : string) : option (string * string) :=
  if String.prefix sep s
  then Some (EmptyString, String.substring (String.length sep) (String.length s) s)
  else match s with
       | EmptyString => None
       | String c r =>
           match cut sep r with
           | Some (a, b) => Some (String c a, b)
           | None => None
           end
       end.

Definition cut_or (sep s : string) : string * string :=
  match cut sep s with Some ab => ab | None => (s, EmptyString) end.

(** [scheme://netloc/path?query#fragment], without parameters. *)
Definition parse_url (u : string) : Url :=
  let (u, frag) := cut_or "#" u in
  let (u, qry) := cut_or "?" u in
  match cut "://" u with
  | Some (sch, rest) =>
      match cut "/" rest with
      | Some (host, p) => mkUrl sch host ("/" ++ p) "" qry frag
      | None => mkUrl sch rest "" "" qry frag
      end
  | None => mkUrl "" "" u "" qry frag
  end.

Definition unparse_url (u : Url) : string :=
  (if String.eqb (scheme u) "" then "" else scheme u ++ "://") ++ netloc u ++ path u ++
  (if String.eqb (query u) "" then "" else "?" ++ query u) ++
  (if String.eqb (fragment u) "" then "" else "#" ++ fragment u).

(** Absolute references and references from the root. *)
Definition join_url (base ref : string) : string :=
  if contains "://" ref then ref
  else let b := parse_url base in scheme b ++ "://" ++ netloc b ++ ref.

(** A static site: what each URL answers, how each body parses. *)
Record Site := mkSite {
  server : string -> option Response;
  bot : string -> string -> option string;
  page : string -> Soup;
  xml : string -> option XmlRoot;
  matches : string -> string -> list string
}.

Definition outside (site : Site) : Outside :=
  {| World := unit;
     session_get := fun url w => (server site url, w);
     chat_create := fun sp up w => (bot site sp up, w);
     urlparse := parse_url;
     urlunparse := unparse_url;
     urljoin := join_url;
     BeautifulSoup := page site;
     re_findall := matches site;
     ET_fromstring := xml site;
     set_iter := elements;
     set_iter_perm := fun s => Permutation_refl (elements s) |}.

Definition start (site : Site) : @Sys (outside site) := @mkSys (outside site) tt [] [] [].

Definition no_soup : Soup := mkSoup [] "" [].
Definition ok (body : string) : Response := mkResponse 200 body body.

(** *** A site whose every request fails *)

Definition down : Site :=
  mkSite (fun _ => None) (fun _ _ => None) (fun _ => no_soup) (fun _ => None) (fun _ _ => []).

(** *** A site that answers every request with status 500 *)

Definition broken : Site :=
  mkSite (fun _ => Some (mkResponse 500 "" "")) (fun _ _ => None)
         (fun _ => no_soup) (fun _ => None) (fun _ _ => []).

(** *** A site that answers every request with status 404 *)

Definition missing : Site :=
  mkSite (fun _ => Some (mkResponse 404 "gone" "gone")) (fun _ _ => None)
         (fun _ => no_soup) (fun _ => None) (fun _ _ => []).

(** *** A site with two contact pages *)

Definition shop_server (url : string) : option Response :=
  if String.eqb url "http://shop.test" then Some (ok "home")
  else if String.eqb url "http://shop.test/contact" then Some (ok "contact")
  else if String.eqb url "http://shop.test/contacts" then Some (ok "contacts")
  else Some (mkResponse 404 "" "").

Definition shop_page (body : string) : Soup :=
  if String.eqb body "home" then
    mkSoup [mkAnchor "/contact" "Contact"; mkAnchor "/contacts" "All contacts"] "" []
  else if String.eqb body "contact" then
    mkSoup [mkAnchor "mailto:Sales@Shop.test?subject=hi" "write"] "" []
  else if String.eqb body "contacts" then
    mkSoup [mkAnchor "mailto:office@shop.test" "office"] "" []
  else no_soup.

Definition shop : Site :=
  mkSite shop_server (fun _ _ => None) shop_page (fun _ => None) (fun _ _ => []).

(** *** Forms *)

Definition email_input : Field := mkField "input" "" "" "" "email".
Definition textarea : Field := mkField "textarea" "" "" "" "".

(** [<form><input type=email><textarea></textarea></form>] *)
Definition plain_form : Form :=
  mkForm "" "" [] "" [email_input; textarea] "<form>...</form>" None.

(** A form with a single textarea: score 3, inside the uncertain range. *)
Definition note_form : Form :=
  mkForm "" "" [] "" [textarea] "<form>...</form>" (Some "Leave a note").

(** A scorer that always answers 2. *)
Definition keen : Site :=
  mkSite (fun _ => None) (fun _ _ => Some " 2 ") (fun _ => no_soup)
         (fun _ => None) (fun _ _ => []).

(** *** Sitemaps *)

Fixpoint digits (fuel n : nat) (acc : string) : string :=
  match fuel with
  | O => acc
  | S fuel' =>
      let acc := String (ascii_of_nat (48 + n mod 10)) acc in
      if (n <? 10)%nat then acc else digits fuel' (n / 10) acc
  end.

Definition numbered (prefix : string) (n : nat) : string := prefix ++ digits n n "".

(** [n] same-domain URLs that all contain a keyword. *)
Definition contact_locs (n : nat) : list (option string) :=
  map (fun k => Some (numbered "http://big.test/ads/" k)) (seq 1 n).

(** [/sitemap.xml] is one [urlset] of 1001 URLs. *)
Definition big : Site :=
  mkSite (fun url => if String.eqb url "http://big.test/sitemap.xml"
                     then Some (ok "urlset") else Some (mkResponse 404 "" ""))
         (fun _ _ => None) (fun _ => no_soup)
         (fun body => if String.eqb body "urlset"
                      then Some (mkXmlRoot (contact_locs 1001) []) else None)
         (fun _ _ => []).

(** [/sitemap.xml] is an index of six sitemaps of one URL each. *)
Definition child_locs : list (option string) :=
  map (fun k => Some (numbered "http://many.test/part" k)) (seq 1 6).

Definition many : Site :=
  mkSite (fun url => if String.eqb url "http://many.test/sitemap.xml"
                     then Some (ok "index")
                     else if startswith url "http://many.test/part" then Some (ok url)
                     else Some (mkResponse 404 "" ""))
         (fun _ _ => None) (fun _ => no_soup)
         (fun body => if String.eqb body "index"
                      then Some (mkXmlRoot [] child_locs)
                      else Some (mkXmlRoot [Some (body ++ "/page")] []))
         (fun _ _ => []).


End Demo.

(** ** Further vocabulary and examples *)

Module Props2.
Import Py Config.

(** [d.get(k)] on a dictionary in insertion order. *)
Fixpoint dict_get {V} (k : string) (d : list (string * V)) : option V :=
  match d with
  | [] => None
  | (k', v) :: r => if String.eqb k' k then Some v else dict_get k r
  end.





Section WithOutside.
Context {Out : Outside}.



(** [u] was requested in the run and answered with status 200. *)
Definition Answered200 (s : Sys) (u : string) (response : Response) : Prop :=
  In (u, Some response) (requests s) /\ status_code response = 200.

End WithOutside.
End Props2.

Module Demo2.
Import Py GoogleSearchAPI BatchParser.

(** A search endpoint that pages through a fixed list of links, [num] at a
    time, from position [start]. *)
Definition page_of (links : list string) (num start : Z) : SearchReply :=
  Data (Some (map (fun l => mkItem (Some l) (Some l) None)
                  (take (Z.to_nat num) (drop (Z.to_nat (start - 1)) links)))).

Definition search_of (site : Demo.Site) (links : list string)
    : @SearchService (Demo.outside site) :=
  {| customsearch := fun _ num start w => (page_of links num start, w) |}.

(** An endpoint that always fails. *)
Definition no_search (site : Demo.Site) : @SearchService (Demo.outside site) :=
  {| customsearch := fun _ _ _ w => (RequestError, w) |}.

Definition shop_links : list string :=
  [ "http://shop.test/a"; "http://shop.test/b"; "http://down.test/" ].

Definition fresh : Batch := mkBatch true false [].

(** A site with two addresses and two form pages, one of them the site
    itself. *)
Definition stored_site : App.ParsedSite :=
  App.mkParsedSite "2026-01-01 10:00" "shop.test" "http://shop.test"
    (Some ["a@shop.test"; "b@shop.test"])
    (Some ["http://shop.test"; "/contact"]).

(** A form whose fields come in another order than in [Demo.plain_form]. *)
Definition swapped_form : Form :=
  mkForm "" "" [] "" [Demo.textarea; Demo.email_input] "<form>...</form>" None.

(** A page with one form of a lone textarea. *)
Definition note_page : Soup := mkSoup [] "" [Demo.note_form].

(** A site with a sitemap of two URLs, one of them on another host. *)
Definition mapped : Demo.Site :=
  Demo.mkSite
    (fun url => if String.eqb url "http://mapped.test/sitemap.xml"
                then Some (Demo.ok "urlset") else Some (mkResponse 404 "" ""))
    (fun _ _ => None) (fun _ => Demo.no_soup)
    (fun body => if String.eqb body "urlset"
                 then Some (mkXmlRoot [Some "http://mapped.test/about/";
                                       Some "http://other.test/contact"] [])
                 else None)
    (fun _ _ => []).

(** A site whose homepage holds a form with an email input and a
    textarea. *)
Definition formy : Demo.Site :=
  Demo.mkSite
    (fun url => if String.eqb url "http://formy.test"
                then Some (Demo.ok "contact") else Some (mkResponse 404 "" ""))
    (fun _ _ => None)
    (fun body => if String.eqb body "contact"
                 then mkSoup [] "" [Demo.plain_form] else Demo.no_soup)
    (fun _ => None) (fun _ _ => []).

(** The decimal number that ends [s], as [Demo.numbered] writes it. *)
Fixpoint trailing_number (s : string) (acc : nat) : nat :=
  match s with
  | EmptyString => acc
  | String c r =>
      let d := nat_of_ascii c in
      if ((48 <=? d) && (d <=? 57))%nat then trailing_number r (10 * acc + (d - 48))
      else trailing_number r 0
  end.

End Demo2.

(** * Properties *)

Import Py Config Props.

(** ** Strings *)

Lemma lower_char_not_upper (c : ascii) : is_upper (lower_char c) = false.
Proof. destruct c as [[] [] [] [] [] [] [] []]; reflexivity. Qed.

Lemma lower_Lowercase (s : string) : Lowercase (lower s).
Proof.
  induction s as [|c s IH]; intros d Hd; simpl in Hd; [contradiction|].
  destruct Hd as [<-|Hd]; [apply lower_char_not_upper | now apply IH].
Qed.

Lemma app_cons (c : ascii) (a b : string) : String c a ++ b = String c (a ++ b).
Proof. reflexivity. Qed.

Lemma app_nil (b : string) : EmptyString ++ b = b.
Proof. reflexivity. Qed.

Lemma lower_app (a b : string) : lower (a ++ b) = lower a ++ lower b.
Proof.
  induction a as [|c a IH]; [reflexivity|].
  rewrite app_cons. simpl. now rewrite IH, app_cons.
Qed.

Lemma prefix_app (p s : string) : String.prefix p s = true -> exists c, s = p ++ c.
Proof.
  revert s; induction p as [|x p IH]; intros s H.
  - now exists s.
  - destruct s as [|y s]; simpl in H; [discriminate|].
    destruct (ascii_dec x y) as [->|]; [|discriminate].
    destruct (IH _ H) as [c ->]. now exists c.
Qed.

Lemma contains_app (n h : string) : contains n h = true -> exists a c, h = a ++ n ++ c.
Proof.
  induction h as [|x h IH]; intros H.
  - destruct n; simpl in H; [|discriminate]. now exists EmptyString, EmptyString.
  - change (String.prefix n (String x h) || contains n h = true) in H.
    apply orb_true_iff in H as [H|H].
    + destruct (prefix_app _ _ H) as [c ->]. now exists EmptyString, c.
    + destruct (IH H) as (a & c & ->). now exists (String x a), c.
Qed.

Lemma split_nonempty (sep : ascii) (s : string) : split sep s <> [].
Proof.
  destruct s as [|x s]; simpl; [discriminate|].
  destruct (Ascii.eqb x sep); [discriminate|]. destruct (split sep s); discriminate.
Qed.

Lemma split_cons (sep : ascii) (s a : string) (rest : list string) :
  split sep s = a :: rest ->
  (s = a /\ rest = []) \/ exists s', s = a ++ String sep s' /\ split sep s' = rest.
Proof.
  revert a rest; induction s as [|x s IH]; intros a rest H; simpl in H.
  - injection H as <- <-. now left.
  - destruct (Ascii.eqb x sep) eqn:E.
    + apply Ascii.eqb_eq in E as ->. injection H as <- <-. right. now exists s.
    + destruct (split sep s) as [|h t] eqn:Hs.
      * now apply split_nonempty in Hs.
      * injection H as <- <-.
        destruct (IH _ _ eq_refl) as [[-> ->]|(s' & -> & Hs')]; [now left|].
        right. now exists s'.
Qed.

Lemma string_app_nil (a : string) : a ++ EmptyString = a.
Proof. induction a as [|c a IH]; [reflexivity | now rewrite app_cons, IH]. Qed.

Lemma split_head_app (sep : ascii) (s a : string) (rest : list string) :
  split sep s = a :: rest -> exists t, s = a ++ t.
Proof.
  intros H. destruct (split_cons _ _ _ _ H) as [[-> _]|(s' & -> & _)].
  - exists EmptyString. now rewrite string_app_nil.
  - now exists (String sep s').
Qed.

(** The indexing [split(':')[1]] of [_find_emails] is in range. *)
Lemma split_mailto_length (href : string) :
  startswith href "mailto:" = true -> (2 <= length (split ":" href))%nat.
Proof.
  intros H. destruct (prefix_app _ _ H) as [c ->].
  rewrite !app_cons, app_nil. simpl.
  pose proof (split_nonempty ":" c). destruct (split ":" c); [congruence | simpl; lia].
Qed.

Lemma contains_nonempty (n h : string) : n <> EmptyString -> contains n h = true -> h <> EmptyString.
Proof. intros Hn H ->. destruct n; [congruence | simpl in H; discriminate]. Qed.

(** The indexing [split('@')[1]] of [_is_valid_email] is in range. *)
Lemma split_at_length (email : string) :
  contains "@" email = true -> (2 <= length (split "@" email))%nat.
Proof.
  intros H. destruct (contains_app _ _ H) as (a & c & ->). clear H.
  induction a as [|x a IH].
  - rewrite app_nil, app_cons, app_nil. simpl.
    pose proof (split_nonempty "@" c). destruct (split "@" c); [congruence | simpl; lia].
  - rewrite app_cons. simpl.
    pose proof (split_nonempty "@" (a ++ "@" ++ c)).
    destruct (Ascii.eqb x "@"); [destruct (split "@" (a ++ "@" ++ c)); [congruence | simpl; lia]|].
    destruct (split "@" (a ++ "@" ++ c)) as [|h [|h' t]]; simpl in *; lia.
Qed.

Lemma string_app_assoc (a b c : string) : (a ++ b) ++ c = a ++ b ++ c.
Proof. induction a as [|x a IH]; [reflexivity | now rewrite !app_cons, IH]. Qed.

Lemma valid_email_AtThenDot (email : string) :
  contains "." (item (split "@" email) 1) = true -> AtThenDot (lower email).
Proof.
  intros H. unfold item in H.
  destruct (split "@" email) as [|a [|b rest]] eqn:Hs; simpl in H; try discriminate.
  destruct (split_cons _ _ _ _ Hs) as [[_ ?]|(s' & -> & Hs')]; [discriminate|].
  destruct (split_head_app _ _ _ _ Hs') as [t ->].
  destruct (contains_app _ _ H) as (b1 & b2 & ->).
  exists (lower a), (lower b1), (lower (b2 ++ t)).
  rewrite lower_app. f_equal. cbn [lower]. f_equal.
  now rewrite string_app_assoc, lower_app.
Qed.

(** ** The effects of each operation on the request log *)

Import FormAnalyzer SitemapParser AdvancedParser.

Ltac unfold_m := unfold bind, ret, log_message, get, chat in *.

Section Visits.
Context {Out : Outside}.

Lemma verify_with_ai_requests client form txt s :
  requests (snd (_verify_with_ai client form txt s)) = requests s.
Proof.
  unfold _verify_with_ai. destruct client; simpl; [|reflexivity].
  unfold_m. simpl. destruct (chat_create _ _ _) as [[c|] w]; simpl; [|reflexivity].
  destruct (search_int _); reflexivity.
Qed.

Lemma is_contact_form_requests client form s :
  requests (snd (_is_contact_form client form s)) = requests s.
Proof.
  unfold _is_contact_form, bind.
  destruct (client && ENABLE_AI_VERIFICATION && uncertain (heuristic_score form)).
  - unfold bind.
    pose proof (verify_with_ai_requests client form (_get_surrounding_text form) s) as H.
    destruct (_verify_with_ai _ _ _ _) as [a s1]. exact H.
  - reflexivity.
Qed.

Lemma analyze_contact_forms_requests client soup s :
  requests (snd (analyze_contact_forms client soup s)) = requests s.
Proof.
  unfold analyze_contact_forms. generalize (forms soup) as fs.
  intros fs; revert s; induction fs as [|f fs IH]; intros s; simpl; [reflexivity|].
  unfold bind. pose proof (is_contact_form_requests client f s) as H.
  destruct (_is_contact_form client f s) as [b s1]. simpl in H.
  destruct b; simpl; [exact H | now rewrite IH].
Qed.

(** [_make_request] performs one request, and returns a response only if
    that request delivered it. *)
Lemma make_request_log url ignore_errors s :
  let r := _make_request url ignore_errors s in
  requests (snd r) = (url, fst (session_get url (world s))) :: requests s /\
  (forall response, fst r = Some response ->
                    fst (session_get url (world s)) = Some response).
Proof.
  unfold _make_request. unfold_m.
  destruct (session_get url (world s)) as [[response|] w]; simpl.
  - destruct (negb ignore_errors && raises_for_status response); simpl; split;
      try reflexivity; intros ? [=]; congruence.
  - destruct (negb ignore_errors); simpl; split; try reflexivity; intros ? [=].
Qed.

(** ** Email extraction *)

Lemma valid_email_Clean (m : string) : _is_valid_email m = true -> Clean (lower m).
Proof.
  unfold _is_valid_email.
  destruct (negb (contains "@" m) || negb (contains "." (item (split "@" m) 1))) eqn:E;
    [discriminate|].
  apply orb_false_iff in E as [_ E]. apply negb_false_iff in E.
  intros H. apply negb_true_iff in H. repeat split.
  - apply lower_Lowercase.
  - now apply valid_email_AtThenDot.
  - intros fp Hfp. destruct (contains fp (lower m)) eqn:C; [|reflexivity].
    assert (existsb (fun fp => contains fp (lower m)) false_positives = true)
      by (apply existsb_exists; eauto).
    congruence.
Qed.

Lemma mailto_loop_elem (l : list Anchor) (E : gset string) (e : string) :
  e ∈ fold_left mailto_step l E ->
  e ∈ E \/ exists link, In link l /\ startswith (href link) "mailto:" = true /\
                        _is_valid_email (mailto_address (href link)) = true /\
                        e = lower (mailto_address (href link)).
Proof.
  revert E; induction l as [|link l IH]; intros E H; simpl in H; [now left|].
  destruct (IH _ H) as [He|(k & Hk & ?)]; [|right; exists k; simpl; tauto].
  unfold mailto_step in He.
  destruct (startswith (href link) "mailto:") eqn:Hm; [|now left].
  destruct (negb _ && _is_valid_email _) eqn:Hv; [|now left].
  apply andb_true_iff in Hv as [_ Hv].
  apply elem_of_union in He as [He|He]; [now left|].
  apply elem_of_singleton in He. right. exists link. simpl. tauto.
Qed.

Lemma regex_loop_elem (l : list string) (E : gset string) (e : string) :
  e ∈ fold_left regex_step l E ->
  e ∈ E \/ exists m, In m l /\ _is_valid_email m = true /\ e = lower m.
Proof.
  revert E; induction l as [|m l IH]; intros E H; simpl in H; [now left|].
  destruct (IH _ H) as [He|(k & Hk & ?)]; [|right; exists k; simpl; tauto].
  unfold regex_step in He. destruct (_is_valid_email m) eqn:Hv; [|now left].
  apply elem_of_union in He as [He|He]; [now left|].
  apply elem_of_singleton in He. right. exists m. simpl. tauto.
Qed.

Lemma find_emails_elem (p : Parser) (soup : Soup) (e : string) :
  e ∈ emails (snd (_find_emails p soup)) ->
  e ∈ emails p \/ (Clean e /\ FromPage soup e).
Proof.
  unfold _find_emails. simpl. intros H.
  apply regex_loop_elem in H as [H|(m & Hm & Hv & ->)].
  - apply mailto_loop_elem in H as [H|(link & Hl & Hs & Hv & ->)]; [now left|].
    right. split; [now apply valid_email_Clean|]. left. now exists link.
  - right. split; [now apply valid_email_Clean|]. right. now exists m.
Qed.

Lemma find_emails_groups (p : Parser) (soup : Soup) :
  successful_groups (snd (_find_emails p soup)) = successful_groups p.
Proof. reflexivity. Qed.

(** ** One visit *)

(** What a visit does to the instance and to the request log. *)
Lemma process_url_cases (p : Parser) (url : string) (s : Sys) b p' s' :
  _process_url p url s = (b, p', s') ->
  (emails p' = emails p \/
   exists response,
     In (url, Some response) (requests s') /\
     emails p' = emails (snd (_find_emails p (BeautifulSoup (text response))))) /\
  (exists l, requests s' = (l ++ requests s)%list) /\
  successful_groups p ⊆ successful_groups p'.
Proof.
  unfold _process_url. intros E.
  destruct (_should_skip_group p (_get_url_keyword_group url)).
  { injection E as <- <- <-. simpl. split; [now left|]. split; [now exists []|]. set_solver. }
  unfold bind at 1 in E. unfold log_message at 1 in E. unfold bind at 1 in E.
  match type of E with context [_make_request url true ?s1] =>
    pose proof (make_request_log url true s1) as [Hlog Hresp];
    destruct (_make_request url true s1) as [[response|] s2] end; simpl in *.
  2: { injection E as <- <- <-. split; [now left|]. split; [|set_solver].
       exists [(url, fst (session_get url (world s)))]. now rewrite Hlog. }
  specialize (Hresp _ eq_refl).
  destruct (negb (truthy response) || negb (status_code response =? 200)); simpl in E.
  { injection E as <- <- <-. split; [now left|]. split; [|set_solver].
    exists [(url, fst (session_get url (world s)))]. now rewrite Hlog. }
  pose proof (analyze_contact_forms_requests (openai_client p)
                (BeautifulSoup (text response)) s2) as Hreq.
  unfold bind at 1 in E.
  destruct (analyze_contact_forms _ _ s2) as [found_forms s3]. simpl in Hreq.
  assert (Hin : In (url, Some response) (requests s3)).
  { rewrite Hreq, Hlog, Hresp. now left. }
  assert (Hext : exists l, requests s3 = (l ++ requests s)%list).
  { exists [(url, fst (session_get url (world s)))]. now rewrite Hreq, Hlog. }
  destruct (_get_url_keyword_group url) as [g|]; simpl in E.
  - destruct ((_ || found_forms) && negb (g =? "")%string) eqn:Hm; simpl in E.
    + apply andb_true_iff in Hm as [_ Hg]. apply negb_true_iff in Hg. rewrite Hg in E.
      injection E as <- <- <-.
      destruct found_forms; simpl; (split; [right; eauto|]); (split; [exact Hext|]); set_solver.
    + injection E as <- <- <-.
      destruct found_forms; simpl; (split; [right; eauto|]); (split; [exact Hext|]); set_solver.
  - injection E as <- <- <-.
    destruct found_forms; simpl; (split; [right; eauto|]); (split; [exact Hext|]); set_solver.
Qed.

(** ** The visit loop *)

Lemma process_all_app (p : Parser) (l1 l2 : list string) (s : Sys) :
  process_all p (l1 ++ l2)%list s =
  process_all (fst (process_all p l1 s)) l2 (snd (process_all p l1 s)).
Proof.
  revert p s; induction l1 as [|u l1 IH]; intros p s; simpl; [reflexivity|].
  unfold bind. destruct (_process_url p u s) as [r s1]. apply IH.
Qed.

Lemma FromFetched_mono (s s' : Sys) (e : string) :
  (exists l, requests s' = (l ++ requests s)%list) -> FromFetched s e -> FromFetched s' e.
Proof.
  intros [l Hl] (url & response & Hin & Hp). exists url, response. split; [|exact Hp].
  rewrite Hl. apply in_or_app. now right.
Qed.

Lemma process_all_inv (p : Parser) (l : list string) (s : Sys) p' s' :
  process_all p l s = (p', s') ->
  (forall e, e ∈ emails p' -> e ∈ emails p \/ (Clean e /\ FromFetched s' e)) /\
  (exists k, requests s' = (k ++ requests s)%list) /\
  successful_groups p ⊆ successful_groups p'.
Proof.
  revert p s; induction l as [|u l IH]; intros p s E; simpl in E.
  - injection E as <- <-. split; [now left|]. split; [now exists []|]. set_solver.
  - unfold bind in E. destruct (_process_url p u s) as [[b p1] s1] eqn:E1. simpl in E.
    destruct (IH _ _ E) as (He & [k Hk] & Hg).
    destruct (process_url_cases _ _ _ _ _ _ E1) as (Hc & [k1 Hk1] & Hg1).
    assert (Hext : exists l, requests s' = (l ++ requests s1)%list) by now exists k.
    split; [|split].
    + intros e Hin. destruct (He e Hin) as [H1|H1]; [|now right].
      destruct Hc as [Hc|(response & Hr & Hc)]; [left; now rewrite <- Hc|].
      rewrite Hc in H1. apply find_emails_elem in H1 as [H1|[Hclean Hpage]]; [now left|].
      right. split; [exact Hclean|]. apply (FromFetched_mono s1 s' e Hext).
      now exists u, response.
    + exists (k ++ k1)%list. now rewrite Hk, Hk1, app_assoc.
    + set_solver.
Qed.

Lemma sorted_elem (l : list string) (x : string) : In x (sorted l) <-> In x l.
Proof.
  unfold sorted. rewrite <- !list_elem_of_In.
  now rewrite (merge_sort_Permutation (fun a b => Is_true (String.leb a b)) l).
Qed.

Lemma sorted_set_elem (X : gset string) (x : string) : In x (sorted (set_iter X)) <-> x ∈ X.
Proof.
  rewrite sorted_elem, <- list_elem_of_In, (set_iter_perm X). apply elem_of_elements.
Qed.


(** The address of a [mailto:] link stops before the query. *)
Lemma mailto_address_no_query (href : string) :
  contains "?" (mailto_address href) = false.
Proof.
  unfold mailto_address, item. generalize (nth 1 (split ":" href) EmptyString) as s.
  intros s. assert (G : forall a rest, split "?" s = a :: rest -> contains "?" a = false).
  { induction s as [|x s IH]; intros a rest H; simpl in H.
    - injection H as <- <-. reflexivity.
    - destruct (Ascii.eqb x "?") eqn:Ex.
      + injection H as <- <-. reflexivity.
      + destruct (split "?" s) as [|h t] eqn:Hs; [now apply split_nonempty in Hs|].
        injection H as <- <-. specialize (IH _ _ eq_refl).
        change (String.prefix "?" (String x h) || contains "?" h = false).
        rewrite IH, orb_false_r. cbn -[ascii_dec].
        destruct (ascii_dec "?" x) as [<-|]; [discriminate | reflexivity]. }
  destruct (split "?" s) as [|a rest] eqn:Hs; [reflexivity|]. simpl. eapply G; eauto.
Qed.

(** ** Group tracking *)

Lemma process_url_skip (p : Parser) (url g : string) (s : Sys) :
  _get_url_keyword_group url = Some g ->
  g ∈ successful_groups p ->
  fst (_process_url p url s) = (false, p) /\
  requests (snd (_process_url p url s)) = requests s.
Proof.
  intros Hg Hin. unfold _process_url. rewrite Hg. simpl.
  rewrite bool_decide_eq_true_2 by exact Hin. split; reflexivity.
Qed.

(** C8.  Once [g] is among the successful groups, a URL of group [g] that
    is processed later, after any further URLs [l2], is skipped: it causes no
    request and leaves the instance as it was. *)
Theorem skip_after_success (p : Parser) (l1 l2 : list string) (u g : string) (s : Sys) :
  g ∈ successful_groups (fst (process_all p l1 s)) ->
  _get_url_keyword_group u = Some g ->
  requests (snd (process_all p (l1 ++ l2 ++ [u])%list s)) =
    requests (snd (process_all p (l1 ++ l2)%list s)) /\
  fst (process_all p (l1 ++ l2 ++ [u])%list s) = fst (process_all p (l1 ++ l2)%list s).
Proof.
  intros Hg Hu. rewrite app_assoc, (process_all_app p (l1 ++ l2)).
  destruct (process_all p (l1 ++ l2)%list s) as [p2 s2] eqn:E2.
  rewrite process_all_app in E2.
  destruct (process_all p l1 s) as [p1 s1] eqn:E1. simpl in *.
  destruct (process_all_inv _ _ _ _ _ E2) as (_ & _ & Hsub).
  assert (Hin : g ∈ successful_groups p2) by set_solver.
  destruct (process_url_skip p2 u g s2 Hu Hin) as [H1 H2].
  unfold bind. destruct (_process_url p2 u s2) as [[b p3] s3]. simpl in *.
  injection H1 as -> ->. now split.
Qed.

End Visits.

(** ** The form score *)

Section Forms.
Context {Out : Outside}.

Lemma add_hits_ge (kws : list string) (ctx : string) (w s : Z) :
  0 <= w -> s <= add_hits kws ctx w s.
Proof.
  intros Hw. unfold add_hits. revert s; induction kws as [|k kws IH]; intros s; simpl; [lia|].
  destruct (contains k ctx); [specialize (IH (s + w)) | specialize (IH s)]; lia.
Qed.

Lemma score_field_eq (t : Tally) (i : Field) :
  score_field t i =
  mkTally (score t + field_points i)
          (has_email_field t || is_email_field i)
          (has_message_field t || is_message_field i)
          (has_name_field t || is_name_field i).
Proof.
  unfold score_field, field_points.
  fold (is_email_field i) (is_message_field i) (is_name_field i) (is_extra_field i).
  destruct t as [sc e m n].
  destruct (is_email_field i), (is_message_field i), (is_name_field i), (is_extra_field i);
    simpl; rewrite ?orb_true_r, ?orb_false_r; f_equal; lia.
Qed.

Lemma field_loop_eq (l : list Field) (t : Tally) :
  fold_left score_field l t =
  mkTally (score t + points_sum l)
          (has_email_field t || existsb is_email_field l)
          (has_message_field t || existsb is_message_field l)
          (has_name_field t || existsb is_name_field l).
Proof.
  revert t; induction l as [|i l IH]; intros t; simpl.
  - destruct t; simpl. rewrite !orb_false_r. f_equal. lia.
  - rewrite IH, score_field_eq. simpl. rewrite !orb_assoc. f_equal. lia.
Qed.

Lemma heuristic_score_eq (form : Form) :
  heuristic_score form =
  base_score form + points_sum (inputs form) +
  bonus (existsb is_email_field (inputs form))
        (existsb is_message_field (inputs form))
        (existsb is_name_field (inputs form)).
Proof.
  unfold heuristic_score, tally. cbv zeta. rewrite field_loop_eq.
  cbn [score has_email_field has_message_field has_name_field orb].
  fold (base_score form). generalize (base_score form) (points_sum (inputs form)).
  intros b q. unfold bonus.
  destruct (existsb is_email_field _), (existsb is_message_field _),
           (existsb is_name_field _); cbn [andb]; lia.
Qed.

Lemma base_score_nonneg (form : Form) : 0 <= base_score form.
Proof.
  unfold base_score.
  etransitivity; [|apply add_hits_ge; lia]. apply add_hits_ge; lia.
Qed.

Lemma field_points_nonneg (i : Field) : 0 <= field_points i.
Proof.
  unfold field_points.
  destruct (is_email_field i), (is_message_field i), (is_name_field i), (is_extra_field i); lia.
Qed.

Lemma points_sum_app (l1 l2 : list Field) :
  points_sum (l1 ++ l2)%list = points_sum l1 + points_sum l2.
Proof. induction l1 as [|i l1 IH]; simpl; lia. Qed.

Lemma points_sum_flags (l : list Field) :
  (if existsb is_email_field l then 4 else 0) +
  (if existsb is_message_field l then 3 else 0) <= points_sum l.
Proof.
  induction l as [|i l IH]; simpl; [lia|].
  pose proof (field_points_nonneg i) as Hi. unfold field_points in *.
  destruct (is_email_field i), (is_message_field i), (is_name_field i), (is_extra_field i),
    (existsb is_email_field l), (existsb is_message_field l); simpl in *; lia.
Qed.

Lemma bonus_mono (e m n e' m' n' : bool) :
  (e = true -> e' = true) -> (m = true -> m' = true) -> (n = true -> n' = true) ->
  bonus e m n <= bonus e' m' n'.
Proof.
  unfold bonus. destruct e, m, n, e', m', n'; simpl; intros H1 H2 H3;
    try lia; try (specialize (H1 eq_refl)); try (specialize (H2 eq_refl));
    try (specialize (H3 eq_refl)); discriminate.
Qed.

Lemma type_email_is_email_field (i : Field) :
  lower (attr_type i) = "email" -> is_email_field i = true.
Proof.
  intros H. unfold is_email_field, input_fields_email. simpl. rewrite H.
  now rewrite orb_true_r.
Qed.

Lemma textarea_is_message_field (i : Field) :
  tag i = "textarea" -> is_message_field i = true.
Proof.
  intros H. unfold is_message_field, input_fields_message. simpl. rewrite H.
  now rewrite orb_true_r.
Qed.

Lemma existsb_In {A} (f : A -> bool) (l : list A) (x : A) :
  In x l -> f x = true -> existsb f l = true.
Proof. intros. apply existsb_exists. eauto. Qed.

(** Without the external call the state is left alone. *)
Lemma is_contact_form_certain (client : bool) (form : Form) (s : Sys) :
  client && uncertain (heuristic_score form) = false ->
  _is_contact_form client form s = (CONTACT_FORM_THRESHOLD <=? heuristic_score form, s).
Proof.
  intros H. unfold _is_contact_form, ENABLE_AI_VERIFICATION.
  rewrite andb_true_r, H. reflexivity.
Qed.

Lemma llm_score_map_table (v : Z) : assoc_get LLM_SCORE_MAP v 0 = verdict_delta v.
Proof.
  unfold LLM_SCORE_MAP, verdict_delta. cbn [assoc_get].
  repeat match goal with |- context [?a =? ?b] => destruct (Z.eqb_spec a b) end;
    try reflexivity; lia.
Qed.

(** What the external call returns and records. *)
Lemma verify_with_ai_spec (form : Form) (txt : string) (s : Sys) :
  fst (_verify_with_ai true form txt s) =
    reply_delta (fst (chat_create system_prompt (user_prompt form txt) (world s))) /\
  chats (snd (_verify_with_ai true form txt s)) =
    (system_prompt, user_prompt form txt) :: chats s.
Proof.
  unfold _verify_with_ai. cbn [negb]. unfold bind, log_message, chat, ret.
  cbn [world chats requests journal].
  destruct (chat_create system_prompt (user_prompt form txt) (world s)) as [[c|] w].
  - unfold reply_delta. cbn [fst].
    destruct (search_int (strip c)) as [v|]; cbn [fst snd chats];
      rewrite ?llm_score_map_table; split; reflexivity.
  - cbn [fst snd chats]. split; reflexivity.
Qed.


(** C6, as the code has it.  A form with a field of type [email] and a
    [textarea] scores at least 10 before any external contribution (4 for the
    email field, 3 for the message field, 3 for the combination), which is
    above the range [2, 8]: the external scorer is not called, and the form
    is a contact form. *)
Theorem email_textarea_form_certain (form : Form) (i j : Field) (client : bool) (s : Sys) :
  In i (inputs form) -> lower (attr_type i) = "email" ->
  In j (inputs form) -> tag j = "textarea" ->
  10 <= heuristic_score form /\
  uncertain (heuristic_score form) = false /\
  _is_contact_form client form s = (true, s).
Proof.
  intros Hi Hti Hj Htj.
  assert (He : existsb is_email_field (inputs form) = true)
    by exact (existsb_In _ _ i Hi (type_email_is_email_field i Hti)).
  assert (Hm : existsb is_message_field (inputs form) = true)
    by exact (existsb_In _ _ j Hj (textarea_is_message_field j Htj)).
  assert (H10 : 10 <= heuristic_score form).
  { rewrite heuristic_score_eq, He, Hm.
    pose proof (base_score_nonneg form). pose proof (points_sum_flags (inputs form)) as Hp.
    rewrite He, Hm in Hp. unfold bonus. simpl.
    destruct (existsb is_name_field (inputs form)); lia. }
  assert (Hu : uncertain (heuristic_score form) = false).
  { unfold uncertain. apply andb_false_iff. right. apply Z.leb_gt. lia. }
  split; [exact H10|]. split; [exact Hu|].
  rewrite is_contact_form_certain by (rewrite Hu; apply andb_false_r).
  f_equal. apply Z.leb_le. unfold CONTACT_FORM_THRESHOLD. lia.
Qed.

Lemma existsb_add_field (f : Field -> bool) (k : nat) (i : Field) (l : list Field) :
  existsb f l = true -> existsb f (take k l ++ i :: drop k l)%list = true.
Proof.
  intros H. rewrite <- (take_drop k l) in H. rewrite existsb_app in *. simpl.
  apply orb_true_iff in H as [-> | ->]; rewrite ?orb_true_r; reflexivity.
Qed.

Lemma points_sum_add_field (k : nat) (i : Field) (l : list Field) :
  points_sum (take k l ++ i :: drop k l)%list = points_sum l + field_points i.
Proof.
  rewrite <- (take_drop k l) at 3. rewrite !points_sum_app. simpl. lia.
Qed.

(** C7.  Adding an email field, in any position, to a form that has a
    message field never lowers the heuristic score; with the external scorer
    disabled, a form that was a contact form stays one. *)
Theorem add_email_field_monotone (form : Form) (i : Field) (k : nat) (s : Sys) :
  existsb is_message_field (inputs form) = true ->
  is_email_field i = true ->
  heuristic_score form <= heuristic_score (add_field k i form) /\
  (fst (_is_contact_form false form s) = true ->
   fst (_is_contact_form false (add_field k i form) s) = true).
Proof.
  intros Hm Hi.
  assert (Hle : heuristic_score form <= heuristic_score (add_field k i form)).
  { rewrite !heuristic_score_eq. unfold add_field. simpl.
    change (base_score (with_inputs form _)) with (base_score form).
    rewrite points_sum_add_field. pose proof (field_points_nonneg i).
    pose proof (bonus_mono
      (existsb is_email_field (inputs form)) (existsb is_message_field (inputs form))
      (existsb is_name_field (inputs form))
      (existsb is_email_field (take k (inputs form) ++ i :: drop k (inputs form))%list)
      (existsb is_message_field (take k (inputs form) ++ i :: drop k (inputs form))%list)
      (existsb is_name_field (take k (inputs form) ++ i :: drop k (inputs form))%list)
      (existsb_add_field _ _ _ _) (existsb_add_field _ _ _ _) (existsb_add_field _ _ _ _)).
    lia. }
  split; [exact Hle|].
  rewrite !is_contact_form_certain by reflexivity. simpl. rewrite !Z.leb_le. lia.
Qed.

End Forms.

(** ** Sitemap links *)

Section Sitemaps.
Context {Out : Outside}.

Lemma keyword_loop_elem (l : list string) (acc : gset string) (x : string) :
  x ∈ fold_left (fun acc url => if has_keyword url then acc ∪ {[ url ]} else acc) l acc <->
  x ∈ acc \/ (In x l /\ has_keyword x = true).
Proof.
  revert acc; induction l as [|u l IH]; intros acc; simpl; [tauto|].
  rewrite IH. destruct (has_keyword u) eqn:Hu.
  - rewrite elem_of_union, elem_of_singleton. split.
    + intros [[H| ->]|[H1 H2]]; auto.
    + intros [H|[[->|H1] H2]]; auto.
  - split.
    + intros [H|[H1 H2]]; auto.
    + intros [H|[[->|H1] H2]]; auto. congruence.
Qed.

Lemma set_iter_elem (X : gset string) (x : string) : In x (set_iter X) <-> x ∈ X.
Proof. rewrite <- list_elem_of_In, (set_iter_perm X). apply elem_of_elements. Qed.

Lemma keyword_loop_eq (urls : gset string) :
  fold_left (fun acc url => if has_keyword url then acc ∪ {[ url ]} else acc)
            (set_iter urls) ∅ = keyword_urls urls.
Proof.
  apply set_eq. intros x. rewrite keyword_loop_elem, set_iter_elem.
  unfold keyword_urls. rewrite elem_of_filter, Is_true_true. set_solver.
Qed.



Lemma backfill_prefix (l : list string) (P : gset string) :
  exists n, backfill l P = P ∪ list_to_set (take n l) /\
            (n = length l \/ (50 <= size (backfill l P))%nat).
Proof.
  revert P; induction l as [|u l IH]; intros P; cbn [backfill].
  - exists O. split; [set_solver | now left].
  - destruct (50 <=? size (P ∪ {[ u ]}))%nat eqn:E.
    + exists 1%nat. split; [simpl; set_solver | right; now apply Nat.leb_le].
    + destruct (IH (P ∪ {[ u ]})) as (n & Hn & Hstop). exists (S n). split.
      * rewrite Hn. simpl. set_solver.
      * destruct Hstop as [->|H]; [now left | now right].
Qed.

Lemma insert_by_perm (k : string -> nat) (x : string) (l : list string) :
  insert_by k x l ≡ₚ x :: l.
Proof.
  induction l as [|y l IH]; simpl; [reflexivity|].
  destruct (k y <=? k x)%nat; [|reflexivity].
  rewrite IH. apply perm_swap.
Qed.

Lemma sorted_by_perm (k : string -> nat) (l : list string) : sorted_by k l ≡ₚ l.
Proof.
  induction l as [|x l IH]; simpl; [reflexivity|].
  now rewrite insert_by_perm, IH.
Qed.




(** A document of [url] elements only, fetched with status 200: the
    traversal returns what the loop over its [loc]s gathers. *)
Lemma parse_sitemap_urlset (depth : nat) (base_url sitemap_url : string) (s : Sys)
    (response : Response) (w : World) (root : XmlRoot) :
  session_get sitemap_url (world s) = (Some response, w) ->
  status_code response = 200 ->
  too_large (content response) = false ->
  ET_fromstring (content response) = Some root ->
  sitemap_locs root = [] ->
  fst (_parse_sitemap (S depth) base_url sitemap_url s) = url_loop base_url (url_locs root) ∅.
Proof.
  intros Hg Hst Hsz Hxml Hnone. cbn [_parse_sitemap]. unfold bind at 1. unfold get.
  rewrite Hg. cbn [fst snd]. rewrite Hst. cbn [Z.eqb Pos.eqb negb]. rewrite Hsz.
  unfold _extract_urls_from_xml. rewrite Hxml, Hnone. reflexivity.
Qed.

(** Locations that are non-empty, already normalized and of the base URL's
    host are all kept by the loop over the [url] elements. *)
Lemma url_loop_kept (base_url : string) (l : list string) (urls : gset string) :
  forallb (fun t => negb (String.eqb t "")
                    && String.eqb (SitemapParser._normalize_url (strip t)) t
                    && _is_same_domain base_url t) l = true ->
  url_loop base_url (map Some l) urls = urls ∪ list_to_set l.
Proof.
  unfold url_loop. revert urls; induction l as [|t l IH]; intros urls H.
  - cbn. set_solver.
  - cbn [forallb] in H. apply andb_prop in H as [Ht Hl].
    apply andb_prop in Ht as [Ht Hsame]. apply andb_prop in Ht as [Hne Hclean].
    apply negb_true_iff in Hne. apply String.eqb_eq in Hclean.
    cbn [map fold_left loc_text]. rewrite Hne. unfold add_clean at 2.
    rewrite Hclean, Hsame, (IH _ Hl). cbn [list_to_set]. set_solver.
Qed.

End Sitemaps.

(** ** Requests and candidates *)

Section Candidates.
Context {Out : Outside}.

(** C9, as the code has it.  On a response with a 4xx or 5xx status,
    [_make_request] with [ignore_errors = False] logs a warning and returns
    [None]: the error does not reach the caller.  With [ignore_errors = True]
    it returns the response itself and logs nothing. *)
Theorem make_request_error_status (url : string) (response : Response) (w : World) (s : Sys) :
  session_get url (world s) = (Some response, w) ->
  raises_for_status response = true ->
  _make_request url false s =
    (None, mkSys w ((url, Some response) :: requests s) (chats s)
                 (("warning", "Request error") :: journal s)) /\
  _make_request url true s =
    (Some response, mkSys w ((url, Some response) :: requests s) (chats s) (journal s)).
Proof.
  intros Hg Hr. unfold _make_request, bind, get, log_message, ret.
  rewrite Hg, Hr. split; reflexivity.
Qed.






End Candidates.

(** ** The properties on concrete sites *)

Import Demo.

(** C1.  The homepage answers 500 to every request.  [parse] does not
    fail: it returns an empty result, after requesting the base URL a second
    time as the one candidate of the visit loop.  The code logs "Cannot load
    main page" and leaves [_collect_priority_urls] early, but the set it
    returns still holds the base URL, so the branch of [parse] that returns
    the failure value is not taken. *)
Theorem homepage_failure_not_fatal :
  let p := @new (outside broken) "http://broken.test" false false in
  let r := @parse (outside broken) 10 p (start broken) in
  fst (fst r) = Some (mkResult [] []) /\
  map fst (requests (snd r)) = ["http://broken.test"; "http://broken.test"] /\
  In ("error", "Cannot load main page") (journal (snd r)).
Proof. vm_compute. split; [reflexivity|]. split; [reflexivity|]. tauto. Qed.

(** The same when every request raises. *)
Lemma homepage_unreachable_not_fatal :
  let p := @new (outside down) "http://down.test" false false in
  let r := @parse (outside down) 10 p (start down) in
  fst (fst r) = Some (mkResult [] []) /\
  requests (snd r) = [("http://down.test", None); ("http://down.test", None)].
Proof. vm_compute. split; reflexivity. Qed.


(** URLs numbered from a list of distinct numbers are distinct, once each
    number is read back from its URL. *)
Lemma numbered_distinct (prefix : string) (l : list nat) :
  NoDup l ->
  forallb (fun k => Nat.eqb (Demo2.trailing_number (numbered prefix k) 0) k) l = true ->
  NoDup (map (numbered prefix) l).
Proof.
  intros Hl H. apply (NoDup_fmap_2_strong (numbered prefix)); [|exact Hl].
  intros x y Hx Hy E. rewrite forallb_forall in H.
  apply list_elem_of_In in Hx, Hy.
  pose proof (H x Hx) as H1. pose proof (H y Hy) as H2.
  apply Nat.eqb_eq in H1, H2. rewrite <- H1, <- H2, E. reflexivity.
Qed.

(** The 1001 locations of the big sitemap are kept as they are. *)
Lemma big_locs_kept :
  forallb (fun t => negb (String.eqb t "")
                    && String.eqb (@SitemapParser._normalize_url (outside big) (strip t)) t
                    && @_is_same_domain (outside big) "http://big.test" t)
          (map (numbered "http://big.test/ads/") (seq 1 1001)) = true.
Proof. vm_compute. reflexivity. Qed.

Lemma big_locs_distinct : NoDup (map (numbered "http://big.test/ads/") (seq 1 1001)).
Proof.
  apply numbered_distinct; [apply NoDup_ListNoDup, seq_NoDup|]. vm_compute. reflexivity.
Qed.

(** C3.  A single sitemap that lists 1001 URLs: its traversal returns all
    1001.  An index of six sitemaps: after the four probes, seven sitemap
    documents are fetched and parsed.  The code stops visiting further
    sitemaps once 1000 URLs are gathered, but it never truncates what one
    document yields, and the sitemaps reached through an index are not
    counted. *)
Theorem sitemap_bounds_exceeded :
  size (fst (@_parse_sitemap (outside big) 10 "http://big.test"
               "http://big.test/sitemap.xml" (start big))) = 1001%nat /\
  let r := @get_links_from_sitemap (outside many) 10 "http://many.test" (start many) in
  size (fst r) = 6%nat /\
  map fst (requests (snd r)) =
    [ "http://many.test/part6"; "http://many.test/part5"; "http://many.test/part4";
      "http://many.test/part3"; "http://many.test/part2"; "http://many.test/part1";
      "http://many.test/sitemap.xml";
      "http://many.test/sitemap.xml"; "http://many.test/sitemaps.xml";
      "http://many.test/sitemap/sitemap.xml"; "http://many.test/sitemap_index.xml" ].
Proof.
  split.
  - rewrite (@parse_sitemap_urlset (outside big) 9 "http://big.test"
               "http://big.test/sitemap.xml" (start big) (ok "urlset") tt
               (mkXmlRoot (contact_locs 1001) []) eq_refl eq_refl eq_refl eq_refl eq_refl).
    cbn [url_locs]. unfold contact_locs.
    rewrite <- (map_map (numbered "http://big.test/ads/") Some).
    pose proof (@url_loop_kept (outside big) "http://big.test"
                  (map (numbered "http://big.test/ads/") (seq 1 1001)) ∅ big_locs_kept) as H.
    rewrite H, (left_id_L ∅ (∪)), (size_list_to_set _ big_locs_distinct).
    rewrite length_map, length_seq. reflexivity.
  - vm_compute. split; reflexivity.
Qed.


(** Counterexample to C6: the form of one email input and one textarea
    scores 10, outside the range, and the configured scorer is not called. *)
Lemma email_textarea_form_no_call :
  heuristic_score plain_form = 10 /\
  uncertain (heuristic_score plain_form) = false /\
  chats (snd (@_is_contact_form (outside keen) true plain_form (start keen))) = [].
Proof. vm_compute. repeat split. Qed.

(** Witness of C6, on the same form. *)
Lemma email_textarea_form_certain_witness :
  10 <= heuristic_score plain_form /\
  uncertain (heuristic_score plain_form) = false /\
  @_is_contact_form (outside keen) true plain_form (start keen) = (true, start keen).
Proof.
  apply (@email_textarea_form_certain (outside keen) plain_form email_input textarea
           true (start keen)).
  - left. reflexivity.
  - reflexivity.
  - right. left. reflexivity.
  - reflexivity.
Defined.

(** Witness of C7: an email input added in front of a lone textarea. *)
Lemma add_email_field_monotone_witness :
  heuristic_score note_form <= heuristic_score (add_field 0 email_input note_form) /\
  (fst (@_is_contact_form (outside down) false note_form (start down)) = true ->
   fst (@_is_contact_form (outside down) false (add_field 0 email_input note_form)
          (start down)) = true).
Proof.
  apply (@add_email_field_monotone (outside down) note_form email_input 0 (start down)).
  - reflexivity.
  - reflexivity.
Defined.

(** Witness of C8: once [/contact] has yielded an address, [/contacts] is
    skipped, also after [/help] was visited in between. *)
Lemma skip_after_success_witness :
  let p := @new (outside shop) "http://shop.test" false true in
  let l1 := ["http://shop.test/contact"] in
  let l2 := ["http://shop.test/help"] in
  let u := "http://shop.test/contacts" in
  requests (snd (@process_all (outside shop) p (l1 ++ l2 ++ [u])%list (start shop))) =
    requests (snd (@process_all (outside shop) p (l1 ++ l2)%list (start shop))) /\
  fst (@process_all (outside shop) p (l1 ++ l2 ++ [u])%list (start shop)) =
    fst (@process_all (outside shop) p (l1 ++ l2)%list (start shop)).
Proof.
  cbv zeta.
  apply (@skip_after_success (outside shop)
           (@new (outside shop) "http://shop.test" false true)
           ["http://shop.test/contact"] ["http://shop.test/help"]
           "http://shop.test/contacts" "contact" (start shop)).
  - vm_compute. reflexivity.
  - vm_compute. reflexivity.
Defined.

(** Counterexample to C9: on a 404, [ignore_errors = True] returns the
    response, and [ignore_errors = False] returns [None] after a warning. *)
Lemma make_request_404 :
  fst (@_make_request (outside missing) "http://missing.test/x" true (start missing)) =
    Some (mkResponse 404 "gone" "gone") /\
  @_make_request (outside missing) "http://missing.test/x" false (start missing) =
    (None, @mkSys (outside missing) tt
             [("http://missing.test/x", Some (mkResponse 404 "gone" "gone"))] []
             [("warning", "Request error")]).
Proof. split; reflexivity. Qed.

(** Witness of C9, on the same request. *)
Lemma make_request_error_status_witness :
  @_make_request (outside missing) "http://missing.test/x" false (start missing) =
    (None, @mkSys (outside missing) tt
             [("http://missing.test/x", Some (mkResponse 404 "gone" "gone"))] []
             [("warning", "Request error")]) /\
  @_make_request (outside missing) "http://missing.test/x" true (start missing) =
    (Some (mkResponse 404 "gone" "gone"),
     @mkSys (outside missing) tt
       [("http://missing.test/x", Some (mkResponse 404 "gone" "gone"))] [] []).
Proof.
  apply (@make_request_error_status (outside missing) "http://missing.test/x"
           (mkResponse 404 "gone" "gone") tt (start missing)).
  - reflexivity.
  - reflexivity.
Defined.


(** * Further properties of the code *)

Import Props2.

(** ** parser.py: email extraction *)

Section MoreEmails.
Context {Out : Outside}.

Lemma mailto_loop_mono (l : list Anchor) (E : gset string) : E ⊆ fold_left mailto_step l E.
Proof.
  revert E; induction l as [|a l IH]; intros E; cbn [fold_left]; [reflexivity|].
  etransitivity; [|apply IH]. unfold mailto_step.
  destruct (startswith _ _); [|reflexivity]. destruct (negb _ && _); [|reflexivity].
  apply union_subseteq_l.
Qed.

Lemma regex_loop_mono (l : list string) (E : gset string) : E ⊆ fold_left regex_step l E.
Proof.
  revert E; induction l as [|a l IH]; intros E; cbn [fold_left]; [reflexivity|].
  etransitivity; [|apply IH]. unfold regex_step.
  destruct (_is_valid_email a); [apply union_subseteq_l | reflexivity].
Qed.

(** X1.  [_find_emails] never drops an address, and it returns [True]
    exactly when the page brought an address that was not known before. *)
Theorem find_emails_grows (p : Parser) (soup : Soup) :
  emails p ⊆ emails (snd (_find_emails p soup)) /\
  (fst (_find_emails p soup) = true <->
   exists e, e ∈ emails (snd (_find_emails p soup)) /\ e ∉ emails p).
Proof.
  unfold _find_emails. cbn [fst snd emails set_emails].
  set (E' := fold_left regex_step _ _).
  assert (Hsub : emails p ⊆ E').
  { unfold E'. etransitivity; [apply mailto_loop_mono | apply regex_loop_mono]. }
  split; [exact Hsub|]. rewrite Nat.ltb_lt. split.
  - intros Hlt.
    assert (Hd : (0 < size (E' ∖ emails p))%nat) by (rewrite size_difference by exact Hsub; lia).
    apply size_pos_elem_of in Hd as [e He]. exists e.
    apply elem_of_difference in He. exact He.
  - intros (e & He & Hne). apply subset_size. split; [exact Hsub|].
    intros Hback. apply Hne, Hback, He.
Qed.









End MoreEmails.

(** ** parser.py: what a run records *)

Section MoreVisits.
Context {Out : Outside}.

(** A form is a contact form only if its heuristic score reaches 2: below
    that the external scorer is not asked and the threshold is out of reach. *)
Lemma is_contact_form_true (client : bool) (form : Form) (s : Sys) :
  fst (_is_contact_form client form s) = true -> 2 <= heuristic_score form.
Proof.
  destruct (client && uncertain (heuristic_score form)) eqn:E.
  - intros _. apply andb_true_iff in E as [_ E]. unfold uncertain in E.
    apply andb_true_iff in E as [E _]. now apply Z.leb_le in E.
  - rewrite is_contact_form_certain by exact E. cbn [fst]. unfold CONTACT_FORM_THRESHOLD.
    rewrite Z.leb_le. lia.
Qed.

Lemma analyze_true_form (client : bool) (soup : Soup) (s : Sys) :
  fst (analyze_contact_forms client soup s) = true ->
  exists form, In form (forms soup) /\ 2 <= heuristic_score form.
Proof.
  unfold analyze_contact_forms. generalize (forms soup) as fs.
  intros fs; revert s; induction fs as [|f fs IH]; intros s; cbn [analyze_contact_forms_loop].
  - discriminate.
  - unfold bind. pose proof (is_contact_form_true client f s) as Hf.
    destruct (_is_contact_form client f s) as [b s1]. cbn [fst] in Hf.
    destruct b.
    + intros _. exists f. split; [now left | now apply Hf].
    + intros H. destruct (IH _ H) as (g & Hg & Hs). exists g. split; [now right | exact Hs].
Qed.

(** What one visit adds to the log, the groups and the form pages. *)
Lemma process_url_effects (p : Parser) (url : string) (s : Sys) b p' s' :
  _process_url p url s = (b, p', s') ->
  (requests s' = requests s \/ exists reply, requests s' = (url, reply) :: requests s) /\
  (forall g, g ∈ successful_groups p' ->
     g ∈ successful_groups p \/
     (_get_url_keyword_group url = Some g /\ exists response, Answered200 s' url response)) /\
  (forall u, u ∈ contact_form_pages p' ->
     u ∈ contact_form_pages p \/
     (u = AdvancedParser._normalize_url url /\
      exists response, Answered200 s' url response /\
        exists form, In form (forms (BeautifulSoup (text response))) /\
                     2 <= heuristic_score form)).
Proof.
  unfold _process_url. intros E.
  destruct (_should_skip_group p (_get_url_keyword_group url)).
  { injection E as <- <- <-. cbn. split; [now left|]. split; intros; now left. }
  unfold bind at 1 in E. unfold log_message at 1 in E. unfold bind at 1 in E.
  match type of E with context [_make_request url true ?s1] =>
    pose proof (make_request_log url true s1) as [Hlog Hresp];
    destruct (_make_request url true s1) as [[response|] s2] end; cbn [fst snd] in *.
  2: { injection E as <- <- <-. split; [right; eexists; exact Hlog|]. split; intros; now left. }
  specialize (Hresp _ eq_refl).
  destruct (negb (truthy response) || negb (status_code response =? 200)) eqn:Hst;
    cbn [fst snd] in E.
  { injection E as <- <- <-. split; [right; eexists; exact Hlog|]. split; intros; now left. }
  apply orb_false_iff in Hst as [_ Hst]. apply negb_false_iff, Z.eqb_eq in Hst.
  pose proof (analyze_contact_forms_requests (openai_client p)
                (BeautifulSoup (text response)) s2) as Hreq.
  pose proof (analyze_true_form (openai_client p) (BeautifulSoup (text response)) s2) as Hform.
  cbn [_find_emails fst snd] in E. unfold bind at 1 in E.
  change (openai_client (set_emails p _)) with (openai_client p) in E.
  destruct (analyze_contact_forms _ _ s2) as [found_forms s3]. cbn [fst snd] in Hreq, Hform.
  assert (Hin : Answered200 s3 url response).
  { split; [|exact Hst]. rewrite Hreq, Hlog, Hresp. now left. }
  assert (Hone : exists reply, requests s3 = (url, reply) :: requests s).
  { eexists. rewrite Hreq. exact Hlog. }
  assert (Hpages : forall q, contact_form_pages q = contact_form_pages p ->
            forall u, u ∈ contact_form_pages
                      (if found_forms
                       then set_contact_form_pages q
                              (contact_form_pages q ∪ {[ AdvancedParser._normalize_url url ]})
                       else q) ->
            u ∈ contact_form_pages p \/
            (u = AdvancedParser._normalize_url url /\
             exists response, Answered200 s3 url response /\
               exists form, In form (forms (BeautifulSoup (text response))) /\
                            2 <= heuristic_score form)).
  { intros q Hq u Hu. destruct found_forms; cbn in Hu; [|left; now rewrite <- Hq].
    apply elem_of_union in Hu as [Hu|Hu]; [left; now rewrite <- Hq|].
    apply elem_of_singleton in Hu. right. split; [exact Hu|]. exists response.
    split; [exact Hin | now apply Hform]. }
  destruct (_get_url_keyword_group url) as [g|] eqn:Hgrp; cbn [fst snd] in E.
  - destruct ((_ || found_forms) && negb (g =? "")%string) eqn:Hm; cbn [fst snd] in E.
    + apply andb_true_iff in Hm as [_ Hg]. apply negb_true_iff in Hg.
      unfold _mark_group_as_successful in E. rewrite Hg in E.
      unfold bind, log_message, ret in E. injection E as <- <- <-.
      cbn [requests]. split; [right; exact Hone|]. split.
      * intros g' Hg'. cbn in Hg'. apply elem_of_union in Hg' as [Hg'|Hg'].
        -- left. destruct found_forms; exact Hg'.
        -- apply elem_of_singleton in Hg' as ->. right. split; [reflexivity|].
           exists response. exact Hin.
      * intros u Hu. eapply Hpages; [|destruct found_forms; exact Hu]; reflexivity.
    + unfold ret in E. injection E as <- <- <-. split; [right; exact Hone|]. split.
      * intros g' Hg'. left. destruct found_forms; exact Hg'.
      * intros u Hu. eapply Hpages; [|exact Hu]; reflexivity.
  - unfold ret in E. injection E as <- <- <-. split; [right; exact Hone|]. split.
    + intros g' Hg'. left. destruct found_forms; exact Hg'.
    + intros u Hu. eapply Hpages; [|exact Hu]; reflexivity.
Qed.

Lemma Answered200_mono (s s' : Sys) (u : string) (response : Response) :
  (exists l, requests s' = (l ++ requests s)%list) ->
  Answered200 s u response -> Answered200 s' u response.
Proof.
  intros [l Hl] [Hin Hst]. split; [|exact Hst]. rewrite Hl. apply in_or_app. now right.
Qed.

(** The same along the visit loop. *)
Lemma process_all_effects (p : Parser) (l : list string) (s : Sys) p' s' :
  process_all p l s = (p', s') ->
  (length (requests s') <= length (requests s) + length l)%nat /\
  (exists k, requests s' = (k ++ requests s)%list) /\
  (forall g, g ∈ successful_groups p' ->
     g ∈ successful_groups p \/
     exists url response, In url l /\ _get_url_keyword_group url = Some g /\
                          Answered200 s' url response) /\
  (forall u, u ∈ contact_form_pages p' ->
     u ∈ contact_form_pages p \/
     exists url response,
       In url l /\ u = AdvancedParser._normalize_url url /\ Answered200 s' url response /\
       exists form, In form (forms (BeautifulSoup (text response))) /\
                    2 <= heuristic_score form).
Proof.
  revert p s; induction l as [|x l IH]; intros p s E; cbn [process_all] in E.
  - injection E as <- <-. split; [cbn; lia|]. split; [now exists []|]. split; intros; now left.
  - unfold bind in E. destruct (_process_url p x s) as [[b p1] s1] eqn:E1. cbn [fst snd] in E.
    destruct (IH _ _ E) as (Hlen & [k Hk] & Hg & Hf).
    destruct (process_url_effects _ _ _ _ _ _ E1) as (Hreq1 & Hg1 & Hf1).
    assert (Hext : exists l, requests s' = (l ++ requests s1)%list) by now exists k.
    split; [|split; [|split]].
    + destruct Hreq1 as [Hr|[reply Hr]]; rewrite Hr in Hlen; cbn [length] in *; lia.
    + destruct Hreq1 as [Hr|[reply Hr]]; rewrite Hk, Hr.
      * now exists k.
      * exists (k ++ [(x, reply)])%list. now rewrite <- app_assoc.
    + intros g Hin. destruct (Hg g Hin) as [H|(url & r & Hu & Hgr & Ha)].
      * destruct (Hg1 g H) as [H1|[Hgr [r Ha]]]; [now left|].
        right. exists x, r. split; [now left|]. split; [exact Hgr|].
        now apply (Answered200_mono s1 s').
      * right. exists url, r. split; [now right|]. now split.
    + intros u Hin. destruct (Hf u Hin) as [H|(url & r & Hu & Hn & Ha & Hfm)].
      * destruct (Hf1 u H) as [H1|[Hn (r & Ha & Hfm)]]; [now left|].
        right. exists x, r. split; [now left|]. split; [exact Hn|].
        split; [now apply (Answered200_mono s1 s') | exact Hfm].
      * right. exists url, r. split; [now right|]. split; [exact Hn|]. split; [exact Ha | exact Hfm].
Qed.

(** The shape of [parse]: candidates, then the loop over them in order. *)
Lemma parse_steps (depth : nat) (p : Parser) (s : Sys) res p' s' :
  parse depth p s = (Some res, p', s') ->
  exists urls s1 s2,
    _collect_priority_urls depth p s = (urls, s1) /\
    requests s2 = requests s1 /\
    process_all p (sorted (set_iter urls)) s2 = (p', s') /\
    res = mkResult (sorted (set_iter (emails p'))) (sorted (set_iter (contact_form_pages p'))).
Proof.
  unfold parse. intros E. unfold bind at 1 in E.
  destruct (_collect_priority_urls depth p s) as [urls s1].
  destruct (decide (urls = ∅)); [discriminate|].
  unfold bind at 1 in E. unfold log_message at 1 in E. unfold bind at 1 in E.
  match type of E with context [process_all ?p ?l ?s2] =>
    destruct (process_all p l s2) as [p2 s3] eqn:Ep; exists urls, s1, s2 end.
  injection E as <- <- <-. repeat split; try reflexivity. exact Ep.
Qed.

Lemma get_url_keyword_group_known (url g : string) :
  _get_url_keyword_group url = Some g -> In g (map fst KEYWORD_GROUPS).
Proof.
  unfold _get_url_keyword_group.
  destruct (find _ KEYWORD_GROUPS) as [kv|] eqn:E.
  - intros [= <-]. apply find_some in E as [E _]. now apply in_map.
  - destruct (contains "contact-us" url); [intros [= <-]; cbn; tauto|].
    destruct (contains "about-us" url); [intros [= <-]; cbn; tauto | discriminate].
Qed.

(** X3.  After a run, every group marked successful is one of the five
    configured groups, and it is the group of a URL that was requested in the
    run and answered with status 200. *)
Theorem successful_groups_earned (depth : nat) (url : string) (client skip : bool)
    (s : Sys) res p' s' (g : string) :
  parse depth (new url client skip) s = (Some res, p', s') ->
  g ∈ successful_groups p' ->
  In g (map fst KEYWORD_GROUPS) /\
  exists u response, _get_url_keyword_group u = Some g /\ Answered200 s' u response.
Proof.
  intros E Hg. destruct (parse_steps _ _ _ _ _ _ E) as (urls & s1 & s2 & _ & _ & Ep & _).
  destruct (process_all_effects _ _ _ _ _ Ep) as (_ & _ & Hgr & _).
  destruct (Hgr g Hg) as [H|(u & r & _ & Hu & Ha)]; [cbn in H; set_solver|].
  split; [now apply (get_url_keyword_group_known u) | now exists u, r].
Qed.

(** X4.  Every page that [parse] reports as a contact-form page is the
    normalized form of a URL that was requested in the run and answered with
    status 200, and whose page holds a form with a heuristic score of at
    least 2. *)
Theorem contact_form_pages_earned (depth : nat) (url : string) (client skip : bool)
    (s : Sys) res p' s' (page : string) :
  parse depth (new url client skip) s = (Some res, p', s') ->
  In page (result_contact_form_pages res) ->
  exists u response,
    page = AdvancedParser._normalize_url u /\ Answered200 s' u response /\
    exists form, In form (forms (BeautifulSoup (text response))) /\ 2 <= heuristic_score form.
Proof.
  intros E Hp. destruct (parse_steps _ _ _ _ _ _ E) as (urls & s1 & s2 & _ & _ & Ep & ->).
  cbn [result_contact_form_pages] in Hp. apply sorted_set_elem in Hp.
  destruct (process_all_effects _ _ _ _ _ Ep) as (_ & _ & _ & Hf).
  destruct (Hf page Hp) as [H|(u & r & _ & Hn & Ha & Hfm)]; [cbn in H; set_solver|].
  now exists u, r.
Qed.

(** X5.  The visit loop makes at most one request per candidate URL. *)
Theorem one_request_per_candidate (p : Parser) (urls : list string) (s : Sys) :
  (length (requests (snd (process_all p urls s))) <= length (requests s) + length urls)%nat.
Proof.
  destruct (process_all p urls s) as [p' s'] eqn:E.
  now destruct (process_all_effects _ _ _ _ _ E) as (H & _).
Qed.




End MoreVisits.

(** ** sitemap_parser.py: what the resolver returns and requests *)

Section MoreSitemaps.
Context {Out : Outside}.

Lemma add_clean_same (base_url : string) (urls : gset string) (raw : string) :
  (forall u, u ∈ urls -> _is_same_domain base_url u = true) ->
  forall u, u ∈ add_clean base_url urls raw -> _is_same_domain base_url u = true.
Proof.
  intros H u. unfold add_clean.
  destruct (_is_same_domain base_url (SitemapParser._normalize_url (strip raw))) eqn:E;
    [|apply H].
  rewrite elem_of_union, elem_of_singleton. intros [Hu| ->]; [now apply H | exact E].
Qed.

Lemma url_loop_same (base_url : string) (locs : list (option string)) (urls : gset string) :
  (forall u, u ∈ urls -> _is_same_domain base_url u = true) ->
  forall u, u ∈ url_loop base_url locs urls -> _is_same_domain base_url u = true.
Proof.
  unfold url_loop. revert urls; induction locs as [|loc locs IH]; intros urls H;
    cbn [fold_left]; [exact H|].
  apply IH. destruct (loc_text loc); [now apply add_clean_same | exact H].
Qed.

Lemma regex_fallback_same (base_url : string) (found : list string) (urls : gset string) :
  (forall u, u ∈ urls -> _is_same_domain base_url u = true) ->
  forall u, u ∈ fold_left (add_clean base_url) found urls -> _is_same_domain base_url u = true.
Proof.
  revert urls; induction found as [|m found IH]; intros urls H; cbn [fold_left]; [exact H|].
  apply IH. now apply add_clean_same.
Qed.

Lemma sitemap_loop_same (base_url : string) (nested : string -> M (gset string))
    (locs : list (option string)) (urls : gset string) (s : Sys) :
  (forall x s0 u, u ∈ fst (nested x s0) -> _is_same_domain base_url u = true) ->
  (forall u, u ∈ urls -> _is_same_domain base_url u = true) ->
  forall u, u ∈ fst (sitemap_loop nested locs urls s) -> _is_same_domain base_url u = true.
Proof.
  intros Hn. revert urls s; induction locs as [|loc locs IH]; intros urls s H;
    cbn [sitemap_loop]; [exact H|].
  destruct (loc_text loc) as [t|]; [|now apply IH].
  unfold bind. pose proof (Hn (strip t) s) as Hx.
  destruct (nested (strip t) s) as [nested_urls s1]. cbn [fst] in Hx.
  assert (Hu : forall u, u ∈ urls ∪ nested_urls -> _is_same_domain base_url u = true).
  { intros u. rewrite elem_of_union. intros [Hu|Hu]; [now apply H | now apply Hx]. }
  destruct (MAX_URLS_PER_SITEMAP <=? size (urls ∪ nested_urls))%nat; [exact Hu|].
  now apply IH.
Qed.

(** Whatever the depth, a sitemap traversal returns same-domain URLs only. *)
Lemma parse_sitemap_same (depth : nat) (base_url sitemap_url : string) (s : Sys) :
  forall u, u ∈ fst (_parse_sitemap depth base_url sitemap_url s) ->
            _is_same_domain base_url u = true.
Proof.
  revert sitemap_url s; induction depth as [|depth IH]; intros sitemap_url s u;
    cbn [_parse_sitemap].
  - cbn. set_solver.
  - unfold bind at 1. unfold get.
    destruct (session_get sitemap_url (world s)) as [[response|] w]; [|cbn; set_solver].
    destruct (negb (status_code response =? 200)); [cbn; set_solver|].
    destruct (too_large (content response)); [cbn; set_solver|].
    unfold _extract_urls_from_xml.
    destruct (ET_fromstring (content response)) as [root|].
    + apply sitemap_loop_same; [intros x s0 v; apply IH|].
      apply url_loop_same. set_solver.
    + cbn [ret fst]. apply regex_fallback_same. set_solver.
Qed.

Lemma top_loop_spec (depth : nat) (base_url : string) (todo : list string)
    (all_links : gset string) (processed : nat) (s : Sys) :
  (forall u, u ∈ all_links -> _is_same_domain base_url u = true) ->
  (forall u, u ∈ fst (fst (top_loop depth base_url todo all_links processed s)) ->
             _is_same_domain base_url u = true) /\
  (snd (fst (top_loop depth base_url todo all_links processed s)) <= processed + length todo)%nat.
Proof.
  revert all_links processed s; induction todo as [|x todo IH]; intros all_links processed s H;
    cbn [top_loop].
  - cbn. split; [exact H | lia].
  - unfold bind. pose proof (parse_sitemap_same depth base_url x s) as Hx.
    destruct (_parse_sitemap depth base_url x s) as [links s1]. cbn [fst] in Hx.
    assert (Hu : forall u, u ∈ all_links ∪ links -> _is_same_domain base_url u = true).
    { intros u. rewrite elem_of_union. intros [Hu|Hu]; [now apply H | now apply Hx]. }
    destruct (MAX_URLS_PER_SITEMAP <=? size (all_links ∪ links))%nat.
    + cbn. split; [exact Hu | lia].
    + destruct (IH (all_links ∪ links) (S processed) s1 Hu) as [H1 H2].
      split; [exact H1 | cbn [length]; lia].
Qed.

Lemma prioritize_subset (urls : gset string) : _prioritize_urls urls ⊆ urls.
Proof.
  unfold _prioritize_urls. destruct (decide (urls = ∅)); [set_solver|].
  rewrite keyword_loop_eq.
  assert (Hkw : keyword_urls urls ⊆ urls)
    by (unfold keyword_urls; intros x; rewrite elem_of_filter; tauto).
  destruct (20 <=? size (keyword_urls urls))%nat; [exact Hkw|].
  destruct (backfill_prefix (sorted_by path_length (set_iter (urls ∖ keyword_urls urls)))
              (keyword_urls urls)) as (k & -> & _).
  intros x. rewrite elem_of_union, elem_of_list_to_set.
  intros [H|H]; [now apply Hkw|].
  apply elem_of_take in H as (i & H & _). apply list_elem_of_lookup_2 in H.
  rewrite sorted_by_perm, (set_iter_perm _), elem_of_elements in H. set_solver.
Qed.

Lemma get_links_same (depth : nat) (base_url : string) (s : Sys) (u : string) :
  u ∈ fst (get_links_from_sitemap depth base_url s) -> _is_same_domain base_url u = true.
Proof.
  unfold get_links_from_sitemap. unfold bind at 1. unfold log_message at 1. unfold bind at 1.
  destruct (_find_sitemap_urls base_url _) as [sitemap_urls s1].
  destruct (decide (sitemap_urls = ∅)); [cbn; set_solver|].
  unfold bind at 1. unfold log_message at 1. unfold bind at 1. unfold gather.
  match goal with |- context [top_loop ?d ?b ?t ?a ?n ?s0] =>
    destruct (top_loop_spec d b t a n s0) as [Hs _]; [set_solver|];
    destruct (top_loop d b t a n s0) as [[links processed] s2] end.
  cbn [fst snd] in *. unfold bind, log_message, ret. cbn [fst].
  intros Hu. apply Hs. now apply prioritize_subset.
Qed.

(** X7.  Every URL that the sitemap resolver returns has the host of the
    base URL, however deep the sitemap indexes nest and whichever of the XML
    parser and the pattern fallback read the documents. *)
Theorem sitemap_links_same_domain (depth : nat) (base_url : string) (s : Sys) (u : string) :
  u ∈ fst (get_links_from_sitemap depth base_url s) ->
  netloc (urlparse u) = netloc (urlparse base_url).
Proof.
  intros H. apply get_links_same in H. unfold _is_same_domain in H.
  now apply String.eqb_eq in H.
Qed.


Lemma set_iter_length (X : gset string) : length (set_iter X) = size X.
Proof. now rewrite (set_iter_perm X). Qed.



(** X9.  The counter of processed top-level sitemaps never exceeds
    [MAX_SITEMAPS], nor the number of sitemaps that were found. *)
Theorem processed_sitemaps_bounded (depth : nat) (base_url : string)
    (sitemap_urls : gset string) (s : Sys) :
  (snd (fst (gather depth base_url sitemap_urls s)) <= MAX_SITEMAPS)%nat /\
  (snd (fst (gather depth base_url sitemap_urls s)) <= size sitemap_urls)%nat.
Proof.
  unfold gather.
  match goal with |- context [top_loop ?d ?b ?t ?a ?n ?s0] =>
    destruct (top_loop_spec d b t a n s0) as [_ H]; [set_solver|] end.
  rewrite length_take, set_iter_length in H. split; lia.
Qed.

End MoreSitemaps.

(** ** parser.py: where candidates come from *)

Section MoreCandidates.
Context {Out : Outside}.





(** X11.  In fast mode the candidates are collected with a single request,
    the one for the homepage. *)
Theorem fast_mode_one_request (depth : nat) (p : Parser) (s : Sys) :
  skip_sitemap p = true ->
  requests (snd (_collect_priority_urls depth p s)) =
    (base_url p, fst (session_get (base_url p) (world s))) :: requests s.
Proof.
  intros Hskip. unfold _collect_priority_urls.
  unfold bind at 1. unfold log_message at 1. unfold bind at 1.
  unfold _make_request. unfold bind at 1. unfold get at 1. cbn [world requests].
  destruct (session_get (base_url p) (world s)) as [[response|] w]; cbn [fst snd].
  - destruct (raises_for_status response) eqn:Hr; cbn [negb andb].
    + reflexivity.
    + unfold ret at 1. unfold truthy. rewrite Hr, Hskip. reflexivity.
  - reflexivity.
Qed.

End MoreCandidates.

(** ** form_analyzer.py: pages and prompts *)

Section MoreForms.
Context {Out : Outside}.

(** X12.  Without an external scorer, a page has a contact form exactly
    when one of its forms reaches the threshold on the heuristic score alone,
    and the analysis leaves no trace. *)
Theorem analyze_without_scorer (soup : Soup) (s : Sys) :
  analyze_contact_forms false soup s =
    (existsb (fun form => CONTACT_FORM_THRESHOLD <=? heuristic_score form) (forms soup), s).
Proof.
  unfold analyze_contact_forms. induction (forms soup) as [|f fs IH];
    cbn [analyze_contact_forms_loop existsb]; [reflexivity|].
  unfold bind. rewrite is_contact_form_certain by reflexivity.
  destruct (CONTACT_FORM_THRESHOLD <=? heuristic_score f); [reflexivity | exact IH].
Qed.

Lemma is_contact_form_chats (client : bool) (form : Form) (s : Sys) :
  chats (snd (_is_contact_form client form s)) = chats s \/
  exists prompt, chats (snd (_is_contact_form client form s)) = prompt :: chats s.
Proof.
  destruct (client && uncertain (heuristic_score form)) eqn:E.
  - right. apply andb_true_iff in E as [-> E].
    unfold _is_contact_form, ENABLE_AI_VERIFICATION. rewrite E. cbn [andb].
    destruct (verify_with_ai_spec form (_get_surrounding_text form) s) as [_ H].
    unfold bind, ret.
    destruct (_verify_with_ai true form (_get_surrounding_text form) s) as [a s1].
    cbn [snd] in *. eexists. exact H.
  - left. now rewrite is_contact_form_certain.
Qed.

(** X13.  Analysing a page sends at most one prompt per form, and none for
    a page without forms. *)
Theorem analyze_call_bound (client : bool) (soup : Soup) (s : Sys) :
  exists sent,
    chats (snd (analyze_contact_forms client soup s)) = (sent ++ chats s)%list /\
    (length sent <= length (forms soup))%nat.
Proof.
  unfold analyze_contact_forms. generalize (forms soup) as fs.
  intros fs; revert s; induction fs as [|f fs IH]; intros s; cbn [analyze_contact_forms_loop].
  - exists []. split; [reflexivity | cbn; lia].
  - unfold bind. pose proof (is_contact_form_chats client f s) as Hc.
    destruct (_is_contact_form client f s) as [b s1]. cbn [snd] in Hc.
    destruct b.
    + destruct Hc as [Hc|[prompt Hc]]; [exists [] | exists [prompt]];
        (split; [exact Hc | cbn; lia]).
    + destruct (IH s1) as (sent & Hs & Hl).
      destruct Hc as [Hc|[prompt Hc]]; rewrite Hs, Hc.
      * exists sent. split; [reflexivity | cbn [length]; lia].
      * exists (sent ++ [prompt])%list. split; [now rewrite <- app_assoc|].
        rewrite length_app. cbn [length]. lia.
Qed.

(** X14.  Inside the uncertain range the extreme verdicts decide: a reply
    that reads 2 makes the form a contact form and a reply that reads -2
    rejects it, whatever the heuristic score in the range. *)
Theorem verdict_decides (form : Form) (s : Sys) (content : string) :
  uncertain (heuristic_score form) = true ->
  fst (chat_create system_prompt (user_prompt form (_get_surrounding_text form)) (world s))
    = Some content ->
  (search_int (strip content) = Some 2 -> fst (_is_contact_form true form s) = true) /\
  (search_int (strip content) = Some (-2) -> fst (_is_contact_form true form s) = false).
Proof.
  intros Hu Hr.
  assert (E : fst (_is_contact_form true form s) =
              (5 <=? heuristic_score form + reply_delta (Some content))).
  { unfold _is_contact_form, ENABLE_AI_VERIFICATION. rewrite Hu. cbn [andb].
    destruct (verify_with_ai_spec form (_get_surrounding_text form) s) as [H _].
    rewrite Hr in H. unfold bind, ret.
    destruct (_verify_with_ai true form (_get_surrounding_text form) s) as [a s1].
    cbn [fst] in *. now subst a. }
  unfold uncertain in Hu. apply andb_true_iff in Hu as [H2 H8].
  apply Z.leb_le in H2, H8. rewrite E. unfold reply_delta.
  split; intros ->; cbn [verdict_delta Z.eqb]; [apply Z.leb_le | apply Z.leb_gt];
    unfold verdict_delta; cbn; lia.
Qed.

Lemma points_sum_perm (l1 l2 : list Field) : l1 ≡ₚ l2 -> points_sum l1 = points_sum l2.
Proof. induction 1; cbn [points_sum fold_right] in *; unfold points_sum in *; lia. Qed.

Lemma existsb_perm {A} (f : A -> bool) (l1 l2 : list A) :
  l1 ≡ₚ l2 -> existsb f l1 = existsb f l2.
Proof.
  induction 1 as [|x l1 l2 _ IH|x y l|l1 l2 l3 _ IH1 _ IH2]; cbn [existsb].
  - reflexivity.
  - now rewrite IH.
  - destruct (f x), (f y); reflexivity.
  - now rewrite IH1.
Qed.

(** X15.  The heuristic score does not depend on the order of the fields
    of the form. *)
Theorem heuristic_score_permutation (form : Form) (l : list Field) :
  l ≡ₚ inputs form ->
  heuristic_score (with_inputs form l) = heuristic_score form.
Proof.
  intros H. rewrite !heuristic_score_eq. cbn [inputs with_inputs].
  change (base_score (with_inputs form l)) with (base_score form).
  now rewrite (points_sum_perm _ _ H), !(existsb_perm _ _ _ H).
Qed.

Lemma length_append (a b : string) :
  String.length (a ++ b) = (String.length a + String.length b)%nat.
Proof. induction a as [|c a IH]; [reflexivity|]. rewrite app_cons. cbn [String.length]. lia. Qed.

Lemma length_take_str (n : nat) (s : string) : (String.length (take_str n s) <= n)%nat.
Proof.
  unfold take_str. revert s; induction n as [|n IH]; intros [|c s]; cbn; try lia.
  specialize (IH s). lia.
Qed.

(** X16.  The prompt sent to the external scorer is bounded whatever the
    size of the form: at most 300 characters of context and 2000 of HTML,
    2338 characters in all. *)
Theorem user_prompt_bounded (form : Form) (surrounding_text : string) :
  (String.length (user_prompt form surrounding_text) <= 2338)%nat.
Proof.
  unfold user_prompt.
  pose proof (length_take_str 300 surrounding_text) as Hc.
  pose proof (length_take_str 2000 (form_html form)) as Hh.
  rewrite !length_append.
  destruct (2000 <? String.length (form_html form))%nat eqn:E.
  - rewrite !length_append. cbn [String.length nl]. lia.
  - apply Nat.ltb_ge in E. cbn [String.length nl]. lia.
Qed.

End MoreForms.

(** ** google_search.py *)

Section MoreSearch.
Context {Out : Outside} {Search : GoogleSearchAPI.SearchService}.
Import GoogleSearchAPI.

Lemma search_results_domain (query : string) (num start : Z) (s : Sys) :
  forall r, In r (fst (search query num start s)) -> domain r = _extract_domain (link r).
Proof.
  unfold search, bind, log_message, request, ret. cbn [world].
  destruct (customsearch query (Z.min num 10) start (world s)) as [[| |[items|]] w];
    cbn [fst]; try (intros r []).
  intros r Hr. apply in_map_iff in Hr as (item & <- & _). reflexivity.
Qed.

(** The loop ends before [turns] runs out when [turns] exceeds what is
    still missing, and it only appends results of [search]. *)
Lemma pages_loop_spec (query : string) (total : Z) (turns : nat) :
  forall (all_results : list SearchResult) (start : Z) (s : Sys),
    (Z.to_nat (total - len all_results) < turns)%nat ->
    exists more,
      fst (pages_loop turns query total all_results start s) = Some (all_results ++ more)%list /\
      (negb (len all_results <? total) = true -> more = []) /\
      forall r, In r more -> domain r = _extract_domain (link r).
Proof.
  induction turns as [|turns IH]; intros all_results start s Hm; [lia|].
  cbn [pages_loop].
  destruct (negb (len all_results <? total)) eqn:Hc.
  - exists []. cbn. rewrite app_nil_r. split; [reflexivity|]. split; [reflexivity | intros r []].
  - apply negb_false_iff, Z.ltb_lt in Hc.
    unfold bind at 1.
    pose proof (search_results_domain query (Z.min (total - len all_results) 10) start s) as Hd.
    destruct (search query _ start s) as [[|x results] s1]; cbn [fst] in Hd.
    + exists []. cbn. rewrite app_nil_r. split; [reflexivity|].
      split; [discriminate | intros r []].
    + assert (Hm' : (Z.to_nat (total - len (all_results ++ x :: results)) < turns)%nat).
      { unfold len in *. rewrite length_app. cbn [length]. lia. }
      unfold bind at 1.
      destruct (len (all_results ++ x :: results) <? total); unfold log_message, ret;
        match goal with |- context [pages_loop turns query total ?a ?st ?s2] =>
          destruct (IH a st s2 Hm') as (more & Hr & _ & Hdm) end;
        (exists (x :: results ++ more)%list; split; [|split; [discriminate|]];
         [rewrite Hr; now rewrite <- app_assoc
         |intros r [<-|Hr']; [apply Hd; now left|];
          apply in_app_or in Hr' as [Hr'|Hr']; [apply Hd; now right | now apply Hdm]]).
Qed.

(** X17.  With more turns than results asked for, [get_multiple_pages]
    finishes; it returns at most [total_results] results (none when that is
    not positive), each with the domain cut from its own link. *)
Theorem get_multiple_pages_bounded (turns : nat) (query : string) (total_results : Z)
    (s : Sys) :
  (Z.to_nat total_results < turns)%nat ->
  exists l,
    fst (get_multiple_pages turns query total_results s) = Some l /\
    (length l <= Z.to_nat total_results)%nat /\
    forall r, In r l -> domain r = _extract_domain (link r).
Proof.
  intros Ht. unfold get_multiple_pages, bind.
  destruct (pages_loop_spec query total_results turns [] 1 s) as (more & Hr & Hz & Hd).
  { unfold len. cbn [length]. rewrite Z.sub_0_r. exact Ht. }
  destruct (pages_loop turns query total_results [] 1 s) as [found s1]. cbn [fst] in *.
  subst found. cbn [app option_map ret fst]. exists (slice_to total_results more).
  split; [reflexivity|]. unfold slice_to.
  destruct (total_results <? 0) eqn:Hn.
  - apply Z.ltb_lt in Hn. rewrite Hz.
    + rewrite take_nil. cbn [length]. split; [lia | intros r []].
    + apply negb_true_iff, Z.ltb_ge. unfold len. cbn [length]. lia.
  - split; [rewrite length_take; lia|].
    intros r Hr'. apply Hd. rewrite <- list_elem_of_In in *.
    now apply (subseteq_take (Z.to_nat total_results) more).
Qed.

End MoreSearch.

(** ** batch_parser.py *)

Section MoreBatch.
Context {Out : Outside} {Search : GoogleSearchAPI.SearchService}.
Import GoogleSearchAPI BatchParser.

Lemma dict_get_set {V} (k k' : string) (v : V) (d : list (string * V)) :
  dict_get k (dict_set k' v d) = if String.eqb k' k then Some v else dict_get k d.
Proof.
  induction d as [|[k0 v0] d IH]; cbn [dict_set dict_get]; [reflexivity|].
  destruct (String.eqb k0 k') eqn:E0.
  - apply String.eqb_eq in E0 as ->. cbn [dict_get]. destruct (String.eqb k' k); reflexivity.
  - cbn [dict_get]. rewrite IH.
    destruct (String.eqb k0 k) eqn:E1, (String.eqb k' k) eqn:E2; try reflexivity.
    apply String.eqb_eq in E1, E2. subst. now rewrite String.eqb_refl in E0.
Qed.

Lemma dict_mem_get {V} (k : string) (d : list (string * V)) :
  dict_mem k d = match dict_get k d with Some _ => true | None => false end.
Proof.
  induction d as [|[k0 v0] d IH]; cbn [dict_mem dict_get]; [reflexivity|].
  destruct (String.eqb k0 k); [reflexivity | exact IH].
Qed.

Lemma dict_mem_keys {V} (k : string) (d : list (string * V)) :
  dict_mem k d = true <-> In k (map fst d).
Proof.
  induction d as [|[k0 v0] d IH]; cbn [dict_mem map fst In]; [split; [discriminate | tauto]|].
  rewrite orb_true_iff, IH, String.eqb_eq. tauto.
Qed.

Lemma dict_set_keys {V} (k : string) (v : V) (d : list (string * V)) :
  map fst (dict_set k v d) = if dict_mem k d then map fst d else (map fst d ++ [k])%list.
Proof.
  induction d as [|[k0 v0] d IH]; cbn [dict_set dict_mem map fst]; [reflexivity|].
  destruct (String.eqb k0 k) eqn:E.
  - apply String.eqb_eq in E as ->. reflexivity.
  - cbn [map fst orb]. rewrite IH. destruct (dict_mem k d); reflexivity.
Qed.

Lemma dict_set_nodup {V} (k : string) (v : V) (d : list (string * V)) :
  NoDup (map fst d) -> NoDup (map fst (dict_set k v d)).
Proof.
  intros H. rewrite dict_set_keys. destruct (dict_mem k d) eqn:E; [exact H|].
  apply NoDup_app. split; [exact H|]. split; [|apply NoDup_singleton].
  intros x Hx Hk. apply list_elem_of_singleton in Hk as ->.
  rewrite list_elem_of_In in Hx. apply dict_mem_keys in Hx. congruence.
Qed.


Lemma unique_loop_spec (results : list SearchResult) (d : list (string * SearchInfo)) :
  let step := fun unique_domains result =>
    if negb (dict_mem (domain result) unique_domains)
    then dict_set (domain result)
                  (mkSearchInfo (title result) (snippet result) (link result)) unique_domains
    else unique_domains in
  (NoDup (map fst d) -> NoDup (map fst (fold_left step results d))) /\
  forall k,
    dict_get k (fold_left step results d) =
    match dict_get k d with
    | Some v => Some v
    | None =>
        option_map (fun r => mkSearchInfo (title r) (snippet r) (link r))
                   (List.find (fun r => String.eqb (domain r) k) results)
    end.
Proof.
  intros step. revert d; induction results as [|r results IH]; intros d;
    cbn [fold_left List.find].
  - split; [tauto|]. intros k. now destruct (dict_get k d).
  - destruct (IH (step d r)) as [Hn Hg]. split.
    + intros H. apply Hn. unfold step. destruct (negb _); [now apply dict_set_nodup | exact H].
    + intros k. rewrite Hg. unfold step. rewrite dict_mem_get.
      destruct (dict_get (domain r) d) as [v|] eqn:Ed; cbn [negb].
      * destruct (String.eqb (domain r) k) eqn:Ek.
        -- apply String.eqb_eq in Ek as <-. now rewrite Ed.
        -- reflexivity.
      * rewrite dict_get_set. destruct (String.eqb (domain r) k) eqn:Ek.
        -- apply String.eqb_eq in Ek as <-. now rewrite Ed.
        -- reflexivity.
Qed.

(** X18.  [_extract_unique_domains] keeps each domain once, and for every
    domain the title, snippet and link of the first search result that has
    it; a domain that no result has is absent. *)
Theorem unique_domains_first (search_results : list SearchResult) :
  NoDup (map fst (_extract_unique_domains search_results)) /\
  forall k,
    dict_get k (_extract_unique_domains search_results) =
    option_map (fun r => mkSearchInfo (title r) (snippet r) (link r))
               (List.find (fun r => String.eqb (domain r) k) search_results).
Proof.
  unfold _extract_unique_domains.
  destruct (unique_loop_spec search_results []) as [Hn Hg].
  split; [apply Hn; constructor | intros k; apply Hg].
Qed.






Lemma slice_to_nil {A} (n : Z) : slice_to n ([] : list A) = [].
Proof. unfold slice_to. destruct (n <? 0); apply take_nil. Qed.

Lemma barren_search (query : string) (num start : Z) (s : Sys) :
  (forall n st w, match fst (customsearch query n st w) with
                  | Data (Some (_ :: _)) => False
                  | _ => True
                  end) ->
  fst (search query num start s) = [] /\ requests (snd (search query num start s)) = requests s.
Proof.
  intros H. unfold search, bind, log_message, request, ret. cbn [world requests].
  specialize (H (Z.min num 10) start (world s)).
  destruct (customsearch query (Z.min num 10) start (world s)) as [[| |[[|i items]|]] w];
    cbn [fst snd requests] in *; try (split; reflexivity). contradiction.
Qed.

(** X21.  When the search brings no item for the query, by failure or by
    an empty answer, the batch ends with the empty dictionary and no site
    is requested. *)
Theorem barren_search_contacts_no_site (turns depth : nat) (b : Batch) (query : string)
    (num_results : Z) (s : Sys) :
  (forall n st w, match fst (customsearch query n st w) with
                  | Data (Some (_ :: _)) => False
                  | _ => True
                  end) ->
  fst (parse_from_search (S turns) depth b query num_results s) = Some ([], b) /\
  requests (snd (parse_from_search (S turns) depth b query num_results s)) = requests s.
Proof.
  intros H. destruct (parse_from_search (S turns) depth b query num_results s) as [r s'] eqn:E.
  cbn [fst snd]. unfold parse_from_search in E.
  unfold bind at 1 in E. unfold log_message at 1 in E.
  unfold bind at 1 in E. unfold log_message at 1 in E.
  unfold bind at 1 in E. unfold log_message at 1 in E. unfold bind at 1 in E.
  unfold get_multiple_pages in E. unfold bind at 1 in E. cbn [pages_loop] in E.
  destruct (negb (len [] <? num_results)).
  - cbn [ret option_map] in E. rewrite slice_to_nil in E.
    unfold bind, log_message, ret in E. injection E as <- <-. split; reflexivity.
  - unfold bind at 1 in E.
    match type of E with context [search query ?n 1 ?s0] =>
      destruct (barren_search query n 1 s0 H) as [Hs Hr];
      destruct (search query n 1 s0) as [found s1] end.
    cbn [fst snd] in *. subst found. cbn [ret option_map] in E. rewrite slice_to_nil in E.
    unfold bind, log_message, ret in E. injection E as <- <-. split; [reflexivity | exact Hr].
Qed.

End MoreBatch.

(** ** app.py: the CSV export *)

Section MoreExport.
Context {Out : Outside}.

(** X22.  The export writes at least one row for every site: one per
    address, one per form page other than the site's own URL, and a single
    empty row when there is neither; every row has five columns. *)
Theorem site_rows_count (site : App.ParsedSite) :
  let addresses := App.or_empty (App.site_emails site) in
  let pages :=
    List.filter (fun form_url => negb (String.eqb form_url (App.site_url site)))
                (App.contact_form_urls site) in
  length (App.site_rows site) = Nat.max 1 (length addresses + length pages) /\
  forall row, In row (App.site_rows site) -> length row = 5%nat.
Proof.
  cbv zeta. unfold App.site_rows. cbv zeta.
  rewrite !length_app, !length_map. split.
  - destruct (App.or_empty (App.site_emails site)) as [|e es];
      destruct (List.filter _ (App.contact_form_urls site)) as [|f fs]; cbn; lia.
  - intros row Hrow. apply in_app_or in Hrow as [Hrow|Hrow];
      [|apply in_app_or in Hrow as [Hrow|Hrow]].
    + apply in_map_iff in Hrow as (e & <- & _). reflexivity.
    + apply in_map_iff in Hrow as (f & <- & _). reflexivity.
    + destruct (negb _ || negb _); [destruct Hrow|].
      destruct Hrow as [<-|[]]. reflexivity.
Qed.

End MoreExport.

(** ** The further properties on concrete sites *)

Import Demo2.

(** Witness of X3: the group of the shop's contact page. *)
Lemma successful_groups_earned_witness :
  let r := @parse (outside shop) 10 (@new (outside shop) "http://shop.test" false true)
             (start shop) in
  In "contact" (map fst KEYWORD_GROUPS) /\
  exists u response,
    @_get_url_keyword_group (outside shop) u = Some "contact" /\
    @Answered200 (outside shop) (snd r) u response.
Proof.
  cbv zeta.
  refine (@successful_groups_earned (outside shop) 10 "http://shop.test" false true
            (start shop) (mkResult ["sales@shop.test"] []) _ _ "contact" _ _).
  - vm_compute. reflexivity.
  - vm_compute. reflexivity.
Defined.

(** Witness of X4: the homepage that holds a contact form. *)
Lemma contact_form_pages_earned_witness :
  let r := @parse (outside formy) 10 (@new (outside formy) "http://formy.test" false true)
             (start formy) in
  exists u response,
    "http://formy.test" = @AdvancedParser._normalize_url (outside formy) u /\
    @Answered200 (outside formy) (snd r) u response /\
    exists form, In form (forms (@BeautifulSoup (outside formy) (text response))) /\
                 2 <= heuristic_score form.
Proof.
  cbv zeta.
  refine (@contact_form_pages_earned (outside formy) 10 "http://formy.test" false true
            (start formy) (mkResult [] ["http://formy.test"]) _ _ "http://formy.test" _ _).
  - vm_compute. reflexivity.
  - left. reflexivity.
Defined.


(** Witness of X7: the same-host URL of the sitemap is kept, normalized. *)
Lemma sitemap_links_same_domain_witness :
  netloc (@urlparse (outside mapped) "http://mapped.test/about") =
  netloc (@urlparse (outside mapped) "http://mapped.test").
Proof.
  apply (@sitemap_links_same_domain (outside mapped) 10 "http://mapped.test" (start mapped)
           "http://mapped.test/about").
  vm_compute. reflexivity.
Defined.



(** Witness of X11: the shop in fast mode. *)
Lemma fast_mode_one_request_witness :
  let p := @new (outside shop) "http://shop.test" false true in
  requests (snd (@_collect_priority_urls (outside shop) 10 p (start shop))) =
    (base_url p, fst (@session_get (outside shop) (base_url p) (world (start shop))))
      :: requests (start shop).
Proof.
  cbv zeta.
  apply (@fast_mode_one_request (outside shop) 10
           (@new (outside shop) "http://shop.test" false true) (start shop)).
  reflexivity.
Defined.

(** Witness of X14: a lone textarea and a scorer that answers 2. *)
Lemma verdict_decides_witness :
  (search_int (strip " 2 ") = Some 2 ->
   fst (@_is_contact_form (outside keen) true note_form (start keen)) = true) /\
  (search_int (strip " 2 ") = Some (-2) ->
   fst (@_is_contact_form (outside keen) true note_form (start keen)) = false).
Proof.
  apply (@verdict_decides (outside keen) note_form (start keen) " 2 ").
  - reflexivity.
  - reflexivity.
Defined.

(** Witness of X15: the two fields of the plain form, swapped. *)
Lemma heuristic_score_permutation_witness :
  heuristic_score (with_inputs plain_form [textarea; email_input]) = heuristic_score plain_form.
Proof.
  apply (heuristic_score_permutation plain_form [textarea; email_input]).
  apply perm_swap.
Defined.

(** Witness of X17: three links asked from an endpoint that has three. *)
Lemma get_multiple_pages_bounded_witness :
  exists l,
    fst (@GoogleSearchAPI.get_multiple_pages (outside shop) (search_of shop shop_links)
           5 "shop" 3 (start shop)) = Some l /\
    (length l <= Z.to_nat 3)%nat /\
    forall r, In r l ->
      GoogleSearchAPI.domain r =
      @GoogleSearchAPI._extract_domain (outside shop) (GoogleSearchAPI.link r).
Proof.
  apply (@get_multiple_pages_bounded (outside shop) (search_of shop shop_links)
           5 "shop" 3 (start shop)).
  vm_compute. lia.
Defined.


(** Witness of X21: an endpoint that fails. *)
Lemma barren_search_contacts_no_site_witness :
  let r := @BatchParser.parse_from_search (outside shop) (no_search shop)
             5 10 fresh "shop" 3 (start shop) in
  fst r = Some ([], fresh) /\ requests (snd r) = requests (start shop).
Proof.
  cbv zeta.
  apply (@barren_search_contacts_no_site (outside shop) (no_search shop)
           4 10 fresh "shop" 3 (start shop)).
  intros n st w. exact I.
Defined.
